(** * EventPhotos: the attendee's photo gallery of one event

    A shallow embedding of [src/components/EventPhotos.tsx].  The component
    is asynchronous glue code: it reads the session token, asks two storage
    collaborators for the event and for the attendee's matched images, and
    offers single and bulk downloads.  Its code is embedded as programs of a
    small state-and-exception monad [Async]: the state is the outside world
    (what the collaborators and the network will answer), the component's
    React state, and the log of every effect performed, in order. *)

From Stdlib Require Import String Ascii List Bool NArith Lia.
Import ListNotations.
Open Scope string_scope.
Open Scope list_scope.

(** ** The fragments of JavaScript the component relies on *)

Module Js.

(** A thrown value; the component only logs it. *)
Inductive JsError : Type :=
| Error (message : string).

(** How an awaited call ends: with a value, or with a rejection. *)
Inductive Completion (A : Type) : Type :=
| Normal (a : A)
| Thrown (e : JsError).
Arguments Normal {A} a.
Arguments Thrown {A} e.

(** Truthiness of a [string | null | undefined]: [null], [undefined] and
    the empty string are falsy. *)
Definition truthy (v : option string) : bool :=
  match v with
  | None => false
  | Some EmptyString => false
  | Some (String _ _) => true
  end.

(** [v || d] at type string. *)
Definition or_else (v : option string) (d : string) : string :=
  match v with
  | None => d
  | Some EmptyString => d
  | Some (String c s) => String c s
  end.

(** [a === b] where [a] is a string and [b] a [string | undefined]. *)
Definition strict_eq (a : string) (b : option string) : bool :=
  match b with
  | None => false
  | Some b' => String.eqb a b'
  end.

(** [s.split(sep)] for a one-character separator: never empty, the
    pieces between the separators, empty pieces kept. *)
Fixpoint split (sep : ascii) (s : string) : list string :=
  match s with
  | EmptyString => [EmptyString]
  | String c rest =>
      if Ascii.eqb c sep then EmptyString :: split sep rest
      else match split sep rest with
           | [] => [String c EmptyString]
           | piece :: pieces => String c piece :: pieces
           end
  end.

(** [a.pop()] as far as its result goes: the last element, or
    [undefined] on an empty array. *)
Fixpoint pop (a : list string) : option string :=
  match a with
  | [] => None
  | [x] => Some x
  | _ :: rest => pop rest
  end.

(** [occurs c s]: the character [c] occurs in [s]. *)
Fixpoint occurs (c : ascii) (s : string) : bool :=
  match s with
  | EmptyString => false
  | String c' rest => Ascii.eqb c' c || occurs c rest
  end.

End Js.
Import Js.

(** ** Data model *)

Module Event.
Record t : Type := mk { id : string; name : string; date : string }.
End Event.

Module MatchingImage.
Record t : Type := mk {
  imageId : string;
  eventId : string;
  eventName : string;
  imageUrl : string;
  matchedDate : string
}.
End MatchingImage.

(** Modelled from the spec: the record type returned by
    [getAllAttendeeImagesByUser], declared in [config/attendeeStorage];
    the spec gives it as [{ eventId, uploadedAt, matchedImages: sequence
    of url }], and the component reads exactly these three fields. *)
Module AttendeeImageData.
Record t : Type := mk {
  eventId : string;
  uploadedAt : string;
  matchedImages : list string
}.
End AttendeeImageData.

(** The body of a response, and the object URL naming it. *)
Definition Blob : Type := string.

(** The transient [<a>] element of a download. *)
Module Anchor.
Record t : Type := mk {
  href : string;
  download : string;
  type : string;
  target : string
}.
End Anchor.

(** The callback handed to the un-awaited [setTimeout] of a download. *)
Inductive TimerTask : Type :=
| Cleanup (link : Anchor.t) (blobUrl : string).

(** Everything the component does to the outside, as log entries. *)
Inductive Effect : Type :=
| SetLoading (b : bool)
| SetEvent (e : Event.t)
| SetImages (l : list MatchingImage.t)
| LocalStorageGetItem (key : string)
| Navigate (to : string)
| ConsoleError (msg : string) (err : option JsError)
| GetEventById (id : string)
| GetAllAttendeeImagesByUser (userEmail : string)
| Fetch (url : string)
| ResponseBlob
| CreateObjectURL (b : Blob)
| AppendChild (link : Anchor.t)
| Click (link : Anchor.t)
| SetTimeout (ms : N) (task : TimerTask)
| WindowOpen (url : string) (target : string)
| Alert (msg : string)
| AwaitTimeout (ms : N).

(** The component's React state ([useState] x 3). *)
Record ViewState : Type := mkView {
  event : option Event.t;
  images : list MatchingImage.t;
  loading : bool
}.

Definition initialView : ViewState :=
  {| event := None; images := []; loading := true |}.

(** What the component puts on the page: the spinner, or the gallery with
    the event's name ([event?.name]), the date line, whether the
    "Download All" button is there, and the grid or the empty panel. *)
Inductive GalleryBody : Type :=
| PhotoGrid (photos : list MatchingImage.t)
| EmptyState (message : string).

Inductive Rendered : Type :=
| Spinner (caption : string)
| Gallery (title : option string) (dateLine : string) (downloadAll : bool)
    (body : GalleryBody).

(** What [fetch] resolves to, over an outside world of type [Env]:
    [response.ok], [response.statusText],
    [response.headers.get('content-type')] and [response.blob()]. *)
Record Response (Env : Type) : Type := mkResponse {
  ok : bool;
  statusText : string;
  headers_content_type : option string;
  blob : Env -> Completion Blob * Env
}.
Arguments ok {Env} r.
Arguments statusText {Env} r.
Arguments headers_content_type {Env} r.
Arguments blob {Env} r.

Record World (Env : Type) : Type := mkWorld {
  env : Env;
  view : ViewState;
  log : list Effect
}.
Arguments mkWorld {Env} env view log.
Arguments env {Env} w.
Arguments view {Env} w.
Arguments log {Env} w.

(** ** The monad of asynchronous code *)

Section Async.

Context {Env : Type}.

Definition Async (A : Type) : Type := World Env -> Completion A * World Env.

Definition ret {A} (a : A) : Async A := fun w => (Normal a, w).

Definition throw {A} (e : JsError) : Async A := fun w => (Thrown e, w).

Definition bind {A B} (m : Async A) (k : A -> Async B) : Async B :=
  fun w =>
    match m w with
    | (Normal a, w') => k a w'
    | (Thrown e, w') => (Thrown e, w')
    end.

(** [try { body } catch (error) { handler error }] *)
Definition try_catch {A} (body : Async A) (handler : JsError -> Async A)
  : Async A :=
  fun w =>
    match body w with
    | (Normal a, w') => (Normal a, w')
    | (Thrown e, w') => handler e w'
    end.

(** [try { body } finally { fin }]: [fin] runs however [body] ends, and
    the completion of [body] stands unless [fin] itself throws. *)
Definition try_finally {A} (body : Async A) (fin : Async unit) : Async A :=
  fun w =>
    match body w with
    | (c, w') =>
        match fin w' with
        | (Normal _, w'') => (c, w'')
        | (Thrown e, w'') => (Thrown e, w'')
        end
    end.

(** Append one entry to the log. *)
Definition perform (e : Effect) : Async unit :=
  fun w => (Normal tt, mkWorld (env w) (view w) (log w ++ [e])).

(** Replace the React state. *)
Definition set_view (f : ViewState -> ViewState) : Async unit :=
  fun w => (Normal tt, mkWorld (env w) (f (view w)) (log w)).

(** Await a collaborator: it answers from the outside world and may
    change it. *)
Definition await {A} (call : Env -> Completion A * Env) : Async A :=
  fun w =>
    match call (env w) with
    | (c, env') => (c, mkWorld env' (view w) (log w))
    end.

End Async.

Declare Scope async_scope.
Delimit Scope async_scope with async.
Notation "x <- m ;; k" := (bind m (fun x => k))
  (at level 61, m at next level, right associativity) : async_scope.
Notation "m ;; k" := (bind m (fun _ => k))
  (at level 61, right associativity) : async_scope.
Open Scope async_scope.

(** [for (const x of xs) { body x }] *)
Fixpoint for_of {Env A} (xs : list A) (body : A -> @Async Env unit)
  : @Async Env unit :=
  match xs with
  | [] => ret tt
  | x :: rest => body x ;; for_of rest body
  end.

(** ** The component *)

Module EventPhotos.
Section Component.

Context {Env : Type}.

(** The collaborators and browser services with a result the component
    depends on. *)
Variable localStorage_getItem : Env -> string -> option string.
Variable getEventById : Env -> string -> Completion (option Event.t) * Env.
Variable getAllAttendeeImagesByUser :
  Env -> string -> Completion (list AttendeeImageData.t) * Env.
Variable fetch : Env -> string -> Completion (Response Env) * Env.
Variable createObjectURL : Blob -> string.

Local Abbreviation Async := (@Async Env).

(** *** State setters and services, each logged *)

Definition setLoading (b : bool) : Async unit :=
  perform (SetLoading b) ;;
  set_view (fun v => mkView (event v) (images v) b).

Definition setEvent (e : Event.t) : Async unit :=
  perform (SetEvent e) ;;
  set_view (fun v => mkView (Some e) (images v) (loading v)).

Definition setImages (l : list MatchingImage.t) : Async unit :=
  perform (SetImages l) ;;
  set_view (fun v => mkView (event v) l (loading v)).

Definition navigate (to : string) : Async unit := perform (Navigate to).

Definition console_error (msg : string) (err : option JsError) : Async unit :=
  perform (ConsoleError msg err).

Definition alert (msg : string) : Async unit := perform (Alert msg).

Definition window_open (url target : string) : Async unit :=
  perform (WindowOpen url target).

Definition localStorage_read (key : string) : Async (option string) :=
  perform (LocalStorageGetItem key) ;;
  (fun w => (Normal (localStorage_getItem (env w) key), w)).

Definition await_getEventById (id : string) : Async (option Event.t) :=
  perform (GetEventById id) ;;
  await (fun e => getEventById e id).

Definition await_getAllAttendeeImagesByUser (userEmail : string)
  : Async (list AttendeeImageData.t) :=
  perform (GetAllAttendeeImagesByUser userEmail) ;;
  await (fun e => getAllAttendeeImagesByUser e userEmail).

Definition await_fetch (url : string) : Async (Response Env) :=
  perform (Fetch url) ;;
  await (fun e => fetch e url).

Definition await_blob (response : Response Env) : Async Blob :=
  perform ResponseBlob ;;
  await (blob response).

Definition await_timeout (ms : N) : Async unit := perform (AwaitTimeout ms).

(** *** [fetchEventPhotos] (lines 29-69) *)

(** [url.split('/').pop() || fallback] *)
Definition trailing_segment (url : string) (fallback : string) : string :=
  or_else (pop (split "/" url)) fallback.

(** The callback of [matchedImages.map] (lines 54-60). *)
Definition toMatchingImage (eventDetails : Event.t)
  (data : AttendeeImageData.t) (url : string) : MatchingImage.t :=
  {| MatchingImage.imageId := trailing_segment url "";
     MatchingImage.eventId := AttendeeImageData.eventId data;
     MatchingImage.eventName := Event.name eventDetails;
     MatchingImage.imageUrl := url;
     MatchingImage.matchedDate := AttendeeImageData.uploadedAt data |}.

(** Lines 51-61: filter by event, then flatten. *)
Definition eventImagesOf (eventId : option string) (eventDetails : Event.t)
  (attendeeImageData : list AttendeeImageData.t) : list MatchingImage.t :=
  flat_map
    (fun data =>
       map (toMatchingImage eventDetails data)
           (AttendeeImageData.matchedImages data))
    (filter
       (fun data => strict_eq (AttendeeImageData.eventId data) eventId)
       attendeeImageData).

(** [eventId] is the route parameter of [useParams], possibly
    [undefined].  The two early [return]s end the [try] block, after
    which only [finally] runs; nothing follows the [try] statement. *)
Definition fetchEventPhotos (eventId : option string) : Async unit :=
  try_finally
    (try_catch
       (setLoading true ;;
        userEmail <- localStorage_read "userEmail" ;;
        match userEmail with
        | None | Some EmptyString => navigate "/GoogleLogin"
        | Some (String c s) =>
            let userEmail := String c s in
            eventDetails <- await_getEventById (or_else eventId "") ;;
            match eventDetails with
            | None =>
                console_error "Event not found" None ;;
                navigate "/attendee-dashboard"
            | Some eventDetails =>
                setEvent eventDetails ;;
                attendeeImageData <-
                  await_getAllAttendeeImagesByUser userEmail ;;
                setImages
                  (eventImagesOf eventId eventDetails attendeeImageData)
            end
        end)
       (fun error =>
          console_error "Error fetching event photos:" (Some error)))
    (setLoading false).

(** *** [handleDownload] (lines 74-123) *)

Definition handleDownload (url : string) : Async unit :=
  try_catch
    (response <- await_fetch url ;;
     (if negb (ok response)
      then throw (Error ("Failed to download image: " ++ statusText response))
      else ret tt) ;;
     let contentType :=
       or_else (headers_content_type response) "image/jpeg" in
     blob <- await_blob response ;;
     perform (CreateObjectURL blob) ;;
     let blobUrl := createObjectURL blob in
     let filename := trailing_segment url "photo.jpg" in
     let link :=
       {| Anchor.href := blobUrl;
          Anchor.download := filename;
          Anchor.type := contentType;
          Anchor.target := "_blank" |} in
     perform (AppendChild link) ;;
     perform (Click link) ;;
     perform (SetTimeout 100 (Cleanup link blobUrl)))
    (fun error =>
       console_error "Error downloading image:" (Some error) ;;
       window_open url "_blank").

(** *** [handleDownloadAll] (lines 125-140) *)

Definition starting_notice : string :=
  "Starting downloads. Please allow multiple downloads in your browser settings.".

Definition failure_notice : string :=
  "Some downloads may have failed. Please try downloading individual photos.".

(** [images] is the state of the render the handler closes over. *)
Definition handleDownloadAll (images : list MatchingImage.t) : Async unit :=
  try_catch
    (alert starting_notice ;;
     for_of images
       (fun image =>
          handleDownload (MatchingImage.imageUrl image) ;;
          await_timeout 500))
    (fun error =>
       console_error "Error downloading all images:" (Some error) ;;
       alert failure_notice).

(** *** Rendering (lines 142-216), as far as its content goes *)

Variable toLocaleDateString : string -> string.

Definition render (v : ViewState) : Rendered :=
  if loading v then Spinner "Loading photos..."
  else
    Gallery
      (option_map Event.name (event v))
      (match event v with
       | Some e =>
           if truthy (Some (Event.date e))
           then toLocaleDateString (Event.date e)
           else "Date not available"
       | None => "Date not available"
       end)
      (Nat.ltb 0 (length (images v)))
      (if (Nat.ltb 0 (length (images v)))
       then PhotoGrid (images v)
       else EmptyState "No photos found for this event").

(** *** The situations the properties speak of *)

(** The session token is there and not empty. *)
Definition logged_in (e : Env) (userEmail : string) : Prop :=
  localStorage_getItem e "userEmail" = Some userEmail /\ userEmail <> "".

(** An activation whose event lookup, or else whose image listing,
    rejects with [err]; [e'] is the outside world after the failed call. *)
Definition fetch_failure (e : Env) (eventId : option string)
  (userEmail : string) (err : JsError) (e' : Env) : Prop :=
  getEventById e (or_else eventId "") = (Thrown err, e') \/
  exists eventDetails e1,
    getEventById e (or_else eventId "") = (Normal (Some eventDetails), e1) /\
    getAllAttendeeImagesByUser e1 userEmail = (Thrown err, e').

(** The single download of [url] fails with [err]: the request is
    rejected, or answered with a status that is not OK, or the body
    cannot be read. *)
Definition download_fails (e : Env) (url : string) (err : JsError) : Prop :=
  (exists e', fetch e url = (Thrown err, e')) \/
  (exists response e',
     fetch e url = (Normal response, e') /\ ok response = false /\
     err = Error ("Failed to download image: " ++ statusText response)) \/
  (exists response e1 e2,
     fetch e url = (Normal response, e1) /\ ok response = true /\
     blob response e1 = (Thrown err, e2)).

(** What a download logs after its [Fetch]: the save-as sequence, or the
    fallback, before or after the body was asked for. *)
Inductive download_tail (url : string) : list Effect -> Prop :=
| tail_saved (b : Blob) (contentType : string) :
    let link :=
      {| Anchor.href := createObjectURL b;
         Anchor.download := trailing_segment url "photo.jpg";
         Anchor.type := contentType;
         Anchor.target := "_blank" |} in
    download_tail url
      [ResponseBlob; CreateObjectURL b; AppendChild link; Click link;
       SetTimeout 100 (Cleanup link (createObjectURL b))]
| tail_fallback (before : list Effect) (err : JsError) :
    before = [] \/ before = [ResponseBlob] ->
    download_tail url
      (before ++ [ConsoleError "Error downloading image:" (Some err);
                  WindowOpen url "_blank"]).

(** The log of one turn of the loop, for [image]. *)
Definition iteration_log (image : MatchingImage.t) (block : list Effect)
  : Prop :=
  exists tail,
    block = Fetch (MatchingImage.imageUrl image) :: tail ++ [AwaitTimeout 500] /\
    download_tail (MatchingImage.imageUrl image) tail.

End Component.
End EventPhotos.
Import EventPhotos.

(** ** The filter, in the words of the specification

    "Only records with [eventId] equal to the active event contribute
    entries": walk the records in order; a record of the active event
    contributes one entry per matched URL, any other record contributes
    nothing.  Compared with the code's [eventImagesOf] below. *)
Fixpoint spec_entries_of_active_event (active : option string)
  (eventDetails : Event.t) (records : list AttendeeImageData.t)
  : list MatchingImage.t :=
  match records with
  | [] => []
  | data :: rest =>
      match active with
      | Some id =>
          if string_dec (AttendeeImageData.eventId data) id
          then map (toMatchingImage eventDetails data)
                 (AttendeeImageData.matchedImages data)
               ++ spec_entries_of_active_event active eventDetails rest
          else spec_entries_of_active_event active eventDetails rest
      | None => spec_entries_of_active_event active eventDetails rest
      end
  end.

(** ** Reading a log *)

(** The URLs of the download attempts of a log, in order. *)
Definition attempts (l : list Effect) : list string :=
  flat_map (fun e => match e with Fetch url => [url] | _ => [] end) l.

(** The alerts of a log, in order. *)
Definition alerts (l : list Effect) : list string :=
  flat_map (fun e => match e with Alert msg => [msg] | _ => [] end) l.

(** Time, in milliseconds.  Every effect takes some time [latency e],
    unknown; an awaited timer of [ms] milliseconds takes at least [ms],
    which is what [setTimeout] promises. *)
Definition duration (latency : Effect -> N) (e : Effect) : N :=
  match e with
  | AwaitTimeout ms => ms + latency e
  | _ => latency e
  end.

(** The time a stretch of the log takes. *)
Definition elapsed (latency : Effect -> N) (l : list Effect) : N :=
  fold_right (fun e t => (duration latency e + t)%N) 0%N l.

(** The calls to the two storage collaborators of a log, in order. *)
Definition collaborator_calls (l : list Effect) : list Effect :=
  filter
    (fun e =>
       match e with
       | GetEventById _ | GetAllAttendeeImagesByUser _ => true
       | _ => false
       end)
    l.

(** The links clicked, the windows opened, the links attached to the
    document, the bodies given an object URL and the timers set, each in
    order. *)
Definition clicks (l : list Effect) : list Anchor.t :=
  flat_map (fun e => match e with Click link => [link] | _ => [] end) l.

Definition opened (l : list Effect) : list string :=
  flat_map (fun e => match e with WindowOpen url _ => [url] | _ => [] end) l.

Definition appended (l : list Effect) : list Anchor.t :=
  flat_map (fun e => match e with AppendChild link => [link] | _ => [] end) l.

Definition created (l : list Effect) : list Blob :=
  flat_map (fun e => match e with CreateObjectURL b => [b] | _ => [] end) l.

Definition timers (l : list Effect) : list (N * TimerTask) :=
  flat_map
    (fun e => match e with SetTimeout ms task => [(ms, task)] | _ => [] end) l.

(** What the callback of the download's timer does (lines 114-117):
    [document.body.removeChild(link)], then
    [window.URL.revokeObjectURL(blobUrl)]. *)
Inductive DomAction : Type :=
| RemoveChild (link : Anchor.t)
| RevokeObjectURL (url : string).

Definition run_task (task : TimerTask) : list DomAction :=
  match task with
  | Cleanup link blobUrl => [RemoveChild link; RevokeObjectURL blobUrl]
  end.

Definition removed (l : list DomAction) : list Anchor.t :=
  flat_map (fun a => match a with RemoveChild link => [link] | _ => [] end) l.

Definition revoked (l : list DomAction) : list string :=
  flat_map (fun a => match a with RevokeObjectURL url => [url] | _ => [] end) l.

(** ** A concrete deployment, for evaluation

    One attendee, one event store, one image store and a small network;
    the outside world says who is logged in and which services are up. *)

Module Demo.

Record Env : Type := mkEnv {
  session : option string;
  events_up : bool;
  images_up : bool
}.

Definition gala : Event.t :=
  {| Event.id := "ev1"; Event.name := "Spring Gala"; Event.date := "2024-05-01" |}.

Definition untitled : Event.t :=
  {| Event.id := ""; Event.name := "Untitled"; Event.date := "" |}.

Definition records : list AttendeeImageData.t :=
  [ {| AttendeeImageData.eventId := "ev1";
       AttendeeImageData.uploadedAt := "2024-05-01";
       AttendeeImageData.matchedImages := ["https://x/a.jpg"; "https://x/b.jpg"] |};
    {| AttendeeImageData.eventId := "ev2";
       AttendeeImageData.uploadedAt := "2024-06-11";
       AttendeeImageData.matchedImages := ["https://x/c.jpg"] |};
    {| AttendeeImageData.eventId := "";
       AttendeeImageData.uploadedAt := "2024-07-02";
       AttendeeImageData.matchedImages := ["https://x/d.jpg"] |} ].

Definition localStorage_getItem (e : Env) (key : string) : option string :=
  if String.eqb key "userEmail" then session e else None.

Definition getEventById (e : Env) (id : string)
  : Completion (option Event.t) * Env :=
  if events_up e
  then (Normal (find (fun ev => String.eqb (Event.id ev) id) [gala; untitled]), e)
  else (Thrown (Error "event store unavailable"), e).

Definition getAllAttendeeImagesByUser (e : Env) (userEmail : string)
  : Completion (list AttendeeImageData.t) * Env :=
  if images_up e
  then (Normal (if String.eqb userEmail "ann@x.org" then records else []), e)
  else (Thrown (Error "image store unavailable"), e).

(** [a.jpg] downloads, [b.jpg] is a 404, the body of [c.jpg] breaks off,
    anything else is unreachable. *)
Definition fetch (e : Env) (url : string) : Completion (Response Env) * Env :=
  if String.eqb url "https://x/a.jpg" then
    (Normal {| ok := true; statusText := "OK";
               headers_content_type := Some "image/png";
               blob := fun e' => (Normal "a-bytes", e') |}, e)
  else if String.eqb url "https://x/b.jpg" then
    (Normal {| ok := false; statusText := "Not Found";
               headers_content_type := None;
               blob := fun e' => (Normal "", e') |}, e)
  else if String.eqb url "https://x/c.jpg" then
    (Normal {| ok := true; statusText := "OK";
               headers_content_type := None;
               blob := fun e' => (Thrown (Error "body stream interrupted"), e') |}, e)
  else (Thrown (Error "Failed to fetch"), e).

Definition createObjectURL (b : Blob) : string := "blob:" ++ b.

Definition loggedIn : Env :=
  {| session := Some "ann@x.org"; events_up := true; images_up := true |}.

Definition loggedOut : Env :=
  {| session := None; events_up := true; images_up := true |}.

Definition eventsDown : Env :=
  {| session := Some "ann@x.org"; events_up := false; images_up := true |}.

Definition imagesDown : Env :=
  {| session := Some "ann@x.org"; events_up := true; images_up := false |}.

(** The world at mount. *)
Definition mount (e : Env) : World Env := mkWorld e initialView [].

Definition fetchEventPhotos : option string -> @Async Env unit :=
  EventPhotos.fetchEventPhotos
    localStorage_getItem getEventById getAllAttendeeImagesByUser.

Definition handleDownload : string -> @Async Env unit :=
  EventPhotos.handleDownload fetch createObjectURL.

Definition handleDownloadAll : list MatchingImage.t -> @Async Env unit :=
  EventPhotos.handleDownloadAll fetch createObjectURL.

(** A list to download in bulk: [b.jpg], the 404, comes first. *)
Definition twoImages : list MatchingImage.t :=
  [ {| MatchingImage.imageId := "b.jpg"; MatchingImage.eventId := "ev1";
       MatchingImage.eventName := "Spring Gala";
       MatchingImage.imageUrl := "https://x/b.jpg";
       MatchingImage.matchedDate := "2024-05-01" |};
    {| MatchingImage.imageId := "a.jpg"; MatchingImage.eventId := "ev1";
       MatchingImage.eventName := "Spring Gala";
       MatchingImage.imageUrl := "https://x/a.jpg";
       MatchingImage.matchedDate := "2024-05-01" |} ].

(** The gallery of [ev1] once loaded. *)
Definition galaImages : list MatchingImage.t :=
  images (view (snd (fetchEventPhotos (Some "ev1") (mount loggedIn)))).

End Demo.

(** ** Facts about the JavaScript fragments *)

Lemma split_nonempty (sep : ascii) (s : string) : split sep s <> [].
Proof.
  destruct s as [|c rest]; simpl; [discriminate|].
  destruct (Ascii.eqb c sep); [discriminate|].
  destruct (split sep rest); discriminate.
Qed.

Lemma split_without_separator (sep : ascii) (s : string) :
  occurs sep s = false -> split sep s = [s].
Proof.
  induction s as [|c rest IH]; simpl; intros H; [reflexivity|].
  apply orb_false_iff in H. destruct H as [Hc Hrest].
  rewrite Hc, (IH Hrest). reflexivity.
Qed.

Lemma split_at_separator (sep : ascii) (p s : string) :
  split sep (p ++ String sep s) = split sep p ++ split sep s.
Proof.
  induction p as [|c rest IH]; simpl.
  - rewrite Ascii.eqb_refl. reflexivity.
  - rewrite IH. destruct (Ascii.eqb c sep); [reflexivity|].
    pose proof (split_nonempty sep rest) as Hne.
    destruct (split sep rest); [contradiction|reflexivity].
Qed.

Lemma pop_app (a b : list string) : b <> [] -> pop (a ++ b) = pop b.
Proof.
  intros Hb. induction a as [|x a IH]; simpl; [reflexivity|].
  rewrite IH. destruct (a ++ b) eqn:E; [|reflexivity].
  apply app_eq_nil in E. destruct E; contradiction.
Qed.

(** The last piece of a split is what follows the last separator. *)
Lemma pop_split_after_last (sep : ascii) (p s : string) :
  occurs sep s = false -> pop (split sep (p ++ String sep s)) = Some s.
Proof.
  intros Hs. rewrite split_at_separator, pop_app by apply split_nonempty.
  rewrite (split_without_separator _ _ Hs). reflexivity.
Qed.

(** Every string is free of the separator, or ends with a separator
    followed by a piece free of it. *)
Lemma last_separator (sep : ascii) (url : string) :
  occurs sep url = false \/
  exists p s, url = (p ++ String sep s)%string /\ occurs sep s = false.
Proof.
  induction url as [|c rest [Hfree|(p & s & -> & Hs)]]; [left; reflexivity| |].
  - destruct (Ascii.eqb c sep) eqn:Hc.
    + right. exists "", rest. apply Ascii.eqb_eq in Hc. subst c. auto.
    + left. simpl. rewrite Hc, Hfree. reflexivity.
  - right. exists (String c p), s. auto.
Qed.

Lemma or_else_self (s : string) : or_else (Some s) "" = s.
Proof. destruct s; reflexivity. Qed.

Lemma strict_eq_true (a : string) (b : option string) :
  strict_eq a b = true <-> b = Some a.
Proof.
  destruct b as [b|]; simpl.
  - rewrite String.eqb_eq. split; congruence.
  - split; discriminate.
Qed.

(** ** Facts about logs *)

Lemma app_eq_split {A} (x : A) (a b l1 l2 : list A) :
  a ++ b = l1 ++ x :: l2 -> ~ In x a ->
  exists k, l1 = a ++ k /\ b = k ++ x :: l2.
Proof.
  revert l1. induction a as [|y a IH]; intros l1 Heq Hnot.
  - exists l1. auto.
  - destruct l1 as [|z l1]; cbn in Heq; inversion Heq; subst.
    + exfalso. apply Hnot. left. reflexivity.
    + destruct (IH l1) as (k & -> & ->); [assumption| |].
      * intros Hin. apply Hnot. right. exact Hin.
      * exists k. auto.
Qed.

Lemma attempts_app (a b : list Effect) :
  attempts (a ++ b) = attempts a ++ attempts b.
Proof. apply flat_map_app. Qed.

Lemma alerts_app (a b : list Effect) : alerts (a ++ b) = alerts a ++ alerts b.
Proof. apply flat_map_app. Qed.

Lemma in_attempts (url : string) (l : list Effect) :
  In (Fetch url) l <-> In url (attempts l).
Proof.
  unfold attempts. rewrite in_flat_map. split.
  - intros H. exists (Fetch url). simpl. auto.
  - intros (e & He & Hu). destruct e; simpl in Hu; try contradiction.
    destruct Hu as [->|[]]. exact He.
Qed.

Lemma in_alerts (msg : string) (l : list Effect) :
  In (Alert msg) l <-> In msg (alerts l).
Proof.
  unfold alerts. rewrite in_flat_map. split.
  - intros H. exists (Alert msg). simpl. auto.
  - intros (e & He & Hu). destruct e; simpl in Hu; try contradiction.
    destruct Hu as [->|[]]. exact He.
Qed.

Lemma elapsed_app (latency : Effect -> N) (a b : list Effect) :
  elapsed latency (a ++ b) = (elapsed latency a + elapsed latency b)%N.
Proof.
  induction a as [|e a IH]; cbn; [reflexivity|].
  fold (elapsed latency (a ++ b)). fold (elapsed latency a). lia.
Qed.

(** A stretch that awaits a timer lasts at least as long as the timer. *)
Lemma elapsed_await (latency : Effect -> N) (ms : N) (l : list Effect) :
  In (AwaitTimeout ms) l -> (ms <= elapsed latency l)%N.
Proof.
  intros Hin. apply in_split in Hin. destruct Hin as (a & b & ->).
  rewrite elapsed_app. cbn. fold (elapsed latency b). lia.
Qed.

(** ** Facts about the component *)

Section Properties.

Context {Env : Type}.
Variable localStorage_getItem : Env -> string -> option string.
Variable getEventById : Env -> string -> Completion (option Event.t) * Env.
Variable getAllAttendeeImagesByUser :
  Env -> string -> Completion (list AttendeeImageData.t) * Env.
Variable fetch : Env -> string -> Completion (Response Env) * Env.
Variable createObjectURL : Blob -> string.
Variable toLocaleDateString : string -> string.

Local Abbreviation fetchEventPhotos :=
  (fetchEventPhotos localStorage_getItem getEventById
     getAllAttendeeImagesByUser).
Local Abbreviation handleDownload := (handleDownload fetch createObjectURL).
Local Abbreviation handleDownloadAll :=
  (handleDownloadAll fetch createObjectURL).
Local Abbreviation render := (render toLocaleDateString).
Local Abbreviation logged_in := (logged_in localStorage_getItem).
Local Abbreviation fetch_failure :=
  (fetch_failure getEventById getAllAttendeeImagesByUser).
Local Abbreviation download_fails := (download_fails fetch).
Local Abbreviation download_tail := (download_tail createObjectURL).
Local Abbreviation iteration_log := (iteration_log createObjectURL).

Ltac open_world w :=
  destruct w as [e0 [ev0 imgs0 ld0] l0];
  cbn [env view log event images loading] in *.

Ltac run :=
  cbv [EventPhotos.fetchEventPhotos EventPhotos.handleDownload
    try_finally try_catch bind ret throw negb
    localStorage_read await_getEventById await_getAllAttendeeImagesByUser
    await_fetch await_blob await_timeout
    setLoading setEvent setImages navigate console_error alert window_open
    await perform set_view env view log event images loading];
  rewrite <- ?app_assoc; cbn [app].

(** *** The five ways [fetchEventPhotos] can go *)

Lemma fetchEventPhotos_no_session (eventId : option string) (w : World Env) :
  truthy (localStorage_getItem (env w) "userEmail") = false ->
  fetchEventPhotos eventId w =
    (Normal tt,
     mkWorld (env w)
       (mkView (event (view w)) (images (view w)) false)
       (log w ++ [SetLoading true; LocalStorageGetItem "userEmail";
                  Navigate "/GoogleLogin"; SetLoading false])).
Proof.
  intros H. open_world w. run.
  destruct (localStorage_getItem e0 "userEmail") as [[|c s]|];
    try discriminate; run; reflexivity.
Qed.

Lemma fetchEventPhotos_event_absent (eventId : option string) (w : World Env)
  (userEmail : string) (e1 : Env) :
  logged_in (env w) userEmail ->
  getEventById (env w) (or_else eventId "") = (Normal None, e1) ->
  fetchEventPhotos eventId w =
    (Normal tt,
     mkWorld e1
       (mkView (event (view w)) (images (view w)) false)
       (log w ++ [SetLoading true; LocalStorageGetItem "userEmail";
                  GetEventById (or_else eventId "");
                  ConsoleError "Event not found" None;
                  Navigate "/attendee-dashboard"; SetLoading false])).
Proof.
  intros [Htok Hne] Hev. open_world w. run. rewrite Htok.
  destruct userEmail as [|c s]; [congruence|].
  run. rewrite Hev. run. reflexivity.
Qed.

Lemma fetchEventPhotos_event_rejected (eventId : option string)
  (w : World Env) (userEmail : string) (err : JsError) (e1 : Env) :
  logged_in (env w) userEmail ->
  getEventById (env w) (or_else eventId "") = (Thrown err, e1) ->
  fetchEventPhotos eventId w =
    (Normal tt,
     mkWorld e1
       (mkView (event (view w)) (images (view w)) false)
       (log w ++ [SetLoading true; LocalStorageGetItem "userEmail";
                  GetEventById (or_else eventId "");
                  ConsoleError "Error fetching event photos:" (Some err);
                  SetLoading false])).
Proof.
  intros [Htok Hne] Hev. open_world w. run. rewrite Htok.
  destruct userEmail as [|c s]; [congruence|].
  run. rewrite Hev. run. reflexivity.
Qed.

Lemma fetchEventPhotos_images_rejected (eventId : option string)
  (w : World Env) (userEmail : string) (eventDetails : Event.t)
  (err : JsError) (e1 e2 : Env) :
  logged_in (env w) userEmail ->
  getEventById (env w) (or_else eventId "") = (Normal (Some eventDetails), e1) ->
  getAllAttendeeImagesByUser e1 userEmail = (Thrown err, e2) ->
  fetchEventPhotos eventId w =
    (Normal tt,
     mkWorld e2
       (mkView (Some eventDetails) (images (view w)) false)
       (log w ++ [SetLoading true; LocalStorageGetItem "userEmail";
                  GetEventById (or_else eventId "");
                  SetEvent eventDetails;
                  GetAllAttendeeImagesByUser userEmail;
                  ConsoleError "Error fetching event photos:" (Some err);
                  SetLoading false])).
Proof.
  intros [Htok Hne] Hev Himg. open_world w. run. rewrite Htok.
  destruct userEmail as [|c s]; [congruence|].
  run. rewrite Hev. run. rewrite Himg. run. reflexivity.
Qed.

Lemma fetchEventPhotos_loaded (eventId : option string)
  (w : World Env) (userEmail : string) (eventDetails : Event.t)
  (attendeeImageData : list AttendeeImageData.t) (e1 e2 : Env) :
  logged_in (env w) userEmail ->
  getEventById (env w) (or_else eventId "") = (Normal (Some eventDetails), e1) ->
  getAllAttendeeImagesByUser e1 userEmail = (Normal attendeeImageData, e2) ->
  fetchEventPhotos eventId w =
    (Normal tt,
     mkWorld e2
       (mkView (Some eventDetails)
          (eventImagesOf eventId eventDetails attendeeImageData) false)
       (log w ++ [SetLoading true; LocalStorageGetItem "userEmail";
                  GetEventById (or_else eventId "");
                  SetEvent eventDetails;
                  GetAllAttendeeImagesByUser userEmail;
                  SetImages
                    (eventImagesOf eventId eventDetails attendeeImageData);
                  SetLoading false])).
Proof.
  intros [Htok Hne] Hev Himg. open_world w. run. rewrite Htok.
  destruct userEmail as [|c s]; [congruence|].
  run. rewrite Hev. run. rewrite Himg. run. reflexivity.
Qed.

(** *** What the loaded list holds *)

Lemma eventImagesOf_spec (eventId : option string) (eventDetails : Event.t)
  (attendeeImageData : list AttendeeImageData.t) :
  eventImagesOf eventId eventDetails attendeeImageData =
  spec_entries_of_active_event eventId eventDetails attendeeImageData.
Proof.
  unfold eventImagesOf.
  destruct eventId as [id|];
    induction attendeeImageData as [|data rest IH]; simpl; auto.
  destruct (string_dec (AttendeeImageData.eventId data) id) as [Heq|Hne].
  - apply String.eqb_eq in Heq. rewrite Heq. simpl. f_equal. exact IH.
  - apply String.eqb_neq in Hne. rewrite Hne. exact IH.
Qed.

Lemma in_eventImagesOf (eventId : option string) (eventDetails : Event.t)
  (attendeeImageData : list AttendeeImageData.t) (m : MatchingImage.t) :
  In m (eventImagesOf eventId eventDetails attendeeImageData) <->
  exists data url,
    In data attendeeImageData /\
    eventId = Some (AttendeeImageData.eventId data) /\
    In url (AttendeeImageData.matchedImages data) /\
    m = toMatchingImage eventDetails data url.
Proof.
  unfold eventImagesOf. rewrite in_flat_map. split.
  - intros (data & Hin & Hm). apply filter_In in Hin. destruct Hin as [Hin Heq].
    apply strict_eq_true in Heq. apply in_map_iff in Hm.
    destruct Hm as (url & Hurl & Hu). exists data, url. auto.
  - intros (data & url & Hin & Heq & Hurl & ->). exists data. split.
    + apply filter_In. split; [exact Hin|]. apply strict_eq_true. exact Heq.
    + apply in_map. exact Hurl.
Qed.

(** C1: when the session, the event and the attendee's records are all
    there, the image list left in view state is exactly the entries
    flattened, in record order, from the records whose [eventId] is the
    route's event identifier; an entry is in the list just when it comes
    from a URL of such a record, every entry carries that identifier, and
    a record of any other event contributes nothing. *)
Theorem fetchEventPhotos_filter_correct (eventId : option string)
  (w : World Env) (userEmail : string) (eventDetails : Event.t)
  (attendeeImageData : list AttendeeImageData.t) (e1 e2 : Env) :
  logged_in (env w) userEmail ->
  getEventById (env w) (or_else eventId "") = (Normal (Some eventDetails), e1) ->
  getAllAttendeeImagesByUser e1 userEmail = (Normal attendeeImageData, e2) ->
  let shown := images (view (snd (fetchEventPhotos eventId w))) in
  shown = spec_entries_of_active_event eventId eventDetails attendeeImageData /\
  (forall m,
     In m shown <->
     exists data url,
       In data attendeeImageData /\
       eventId = Some (AttendeeImageData.eventId data) /\
       In url (AttendeeImageData.matchedImages data) /\
       m = toMatchingImage eventDetails data url) /\
  (forall m, In m shown -> eventId = Some (MatchingImage.eventId m)) /\
  (forall data url,
     In data attendeeImageData ->
     eventId <> Some (AttendeeImageData.eventId data) ->
     ~ In (toMatchingImage eventDetails data url) shown).
Proof.
  intros Hin Hev Himg shown. subst shown.
  rewrite (fetchEventPhotos_loaded _ _ _ _ _ _ _ Hin Hev Himg).
  cbn [snd view images].
  assert (Hall : forall m,
             In m (eventImagesOf eventId eventDetails attendeeImageData) ->
             eventId = Some (MatchingImage.eventId m)).
  { intros m Hm. apply in_eventImagesOf in Hm.
    destruct Hm as (data & url & _ & Heq & _ & ->). exact Heq. }
  split; [apply eventImagesOf_spec|].
  split; [apply in_eventImagesOf|].
  split; [exact Hall|].
  intros data url _ Hne Hm. apply Hall in Hm. cbn in Hm. contradiction.
Qed.

(** C4: when the session is there and the event lookup finds no event,
    activation logs "Event not found", redirects to the dashboard and
    stops loading; the attendee image collaborator is never called, no
    image list is set, so the list is what it was: empty, from the
    mounted state. *)
Theorem fetchEventPhotos_unknown_event (eventId : option string)
  (w : World Env) (userEmail : string) (e1 : Env) :
  logged_in (env w) userEmail ->
  getEventById (env w) (or_else eventId "") = (Normal None, e1) ->
  let w' := snd (fetchEventPhotos eventId w) in
  exists new,
    log w' = log w ++ new /\
    new = [SetLoading true; LocalStorageGetItem "userEmail";
           GetEventById (or_else eventId "");
           ConsoleError "Event not found" None;
           Navigate "/attendee-dashboard"; SetLoading false] /\
    (forall email, ~ In (GetAllAttendeeImagesByUser email) new) /\
    (forall l, ~ In (SetImages l) new) /\
    env w' = e1 /\
    images (view w') = images (view w) /\
    (images (view w) = [] -> images (view w') = []).
Proof.
  intros Hin Hev w'. subst w'.
  rewrite (fetchEventPhotos_event_absent _ _ _ _ Hin Hev).
  cbn [snd env view log images]. eexists. split; [reflexivity|].
  split; [reflexivity|].
  split; [|split; [|auto]];
    intros x [H|[H|[H|[H|[H|[H|[]]]]]]]; discriminate H.
Qed.

(** C5: when no [userEmail] token is stored, activation redirects to
    the authentication view and does nothing else but switch the loading
    flag: neither [getEventById] nor [getAllAttendeeImagesByUser] is
    called, and the outside world is left as it was. *)
Theorem fetchEventPhotos_no_token (eventId : option string) (w : World Env) :
  localStorage_getItem (env w) "userEmail" = None ->
  let w' := snd (fetchEventPhotos eventId w) in
  exists new,
    log w' = log w ++ new /\
    new = [SetLoading true; LocalStorageGetItem "userEmail";
           Navigate "/GoogleLogin"; SetLoading false] /\
    (forall id, ~ In (GetEventById id) new) /\
    (forall email, ~ In (GetAllAttendeeImagesByUser email) new) /\
    env w' = env w /\
    event (view w') = event (view w) /\
    images (view w') = images (view w).
Proof.
  intros Htok w'. subst w'.
  rewrite fetchEventPhotos_no_session by (rewrite Htok; reflexivity).
  cbn [snd env view log event images]. eexists. split; [reflexivity|].
  split; [reflexivity|].
  split; [|split; [|auto]];
    intros x [H|[H|[H|[H|[]]]]]; discriminate H.
Qed.

(** C8, as the code has it: when the event lookup or the image listing
    rejects, nothing escapes [fetchEventPhotos]: the error is logged
    with [console.error], loading ends as [false], and the only effects
    besides are the state updates and the collaborator calls
    themselves: no alert, no redirect, no image list set.  The image
    list is therefore left as it was, not emptied: from an empty list
    (as at mount) the page rendered is the gallery with the empty-state
    panel and no "Download All" button; from a list that already holds
    images it is the grid of those images. *)
Theorem fetchEventPhotos_fetch_failure (eventId : option string)
  (w : World Env) (userEmail : string) (err : JsError) (e' : Env) :
  logged_in (env w) userEmail ->
  fetch_failure (env w) eventId userEmail err e' ->
  fst (fetchEventPhotos eventId w) = Normal tt /\
  let w' := snd (fetchEventPhotos eventId w) in
  exists new,
    log w' = log w ++ new /\
    In (ConsoleError "Error fetching event photos:" (Some err)) new /\
    (forall msg, ~ In (Alert msg) new) /\
    (forall to, ~ In (Navigate to) new) /\
    (forall l, ~ In (SetImages l) new) /\
    loading (view w') = false /\
    images (view w') = images (view w) /\
    (images (view w) = [] ->
     images (view w') = [] /\
     exists title dateLine,
       render (view w') =
       Gallery title dateLine false
         (EmptyState "No photos found for this event")) /\
    (images (view w) <> [] ->
     exists title dateLine,
       render (view w') =
       Gallery title dateLine true (PhotoGrid (images (view w)))).
Proof.
  intros Hin [Hev|(eventDetails & e1 & Hev & Himg)].
  - rewrite (fetchEventPhotos_event_rejected _ _ _ _ _ Hin Hev).
    cbn [fst snd view log images loading]. split; [reflexivity|].
    eexists. split; [reflexivity|].
    split; [simpl; auto|].
    repeat (split;
            [intros x [H|[H|[H|[H|[H|[]]]]]]; discriminate H|]).
    split; [reflexivity|]. split; [reflexivity|]. split.
    + intros Hnil. split; [exact Hnil|].
      unfold EventPhotos.render. cbn [loading images event]. rewrite Hnil.
      cbn [length Nat.ltb Nat.leb]. eauto.
    + intros Hne. unfold EventPhotos.render. cbn [loading images event].
      destruct (images (view w)) as [|m l]; [contradiction|].
      cbn [length Nat.ltb Nat.leb]. eauto.
  - rewrite (fetchEventPhotos_images_rejected _ _ _ _ _ _ _ Hin Hev Himg).
    cbn [fst snd view log images loading]. split; [reflexivity|].
    eexists. split; [reflexivity|].
    split; [simpl; auto 10|].
    repeat (split;
            [intros x [H|[H|[H|[H|[H|[H|[H|[]]]]]]]]; discriminate H|]).
    split; [reflexivity|]. split; [reflexivity|]. split.
    + intros Hnil. split; [exact Hnil|].
      unfold EventPhotos.render. cbn [loading images event]. rewrite Hnil.
      cbn [length Nat.ltb Nat.leb]. eauto.
    + intros Hne. unfold EventPhotos.render. cbn [loading images event].
      destruct (images (view w)) as [|m l]; [contradiction|].
      cbn [length Nat.ltb Nat.leb]. eauto.
Qed.

Lemma eventImagesOf_undefined (eventDetails : Event.t)
  (attendeeImageData : list AttendeeImageData.t) :
  eventImagesOf None eventDetails attendeeImageData = [].
Proof.
  unfold eventImagesOf.
  induction attendeeImageData as [|data rest IH]; simpl; auto.
Qed.

(** C10: with the route's event identifier [undefined], a logged-in
    activation still calls the event lookup, with the empty string; the
    filter compares every record's [eventId] with [undefined], so no
    record passes: whatever the collaborators answer, any image list
    that is set is empty and the list stays empty from the mounted
    state, and when an event with id [""] is found and the records are
    listed, the list set is the empty one. *)
Theorem fetchEventPhotos_undefined_route (w : World Env) (userEmail : string) :
  logged_in (env w) userEmail ->
  let w' := snd (fetchEventPhotos None w) in
  (exists rest,
     log w' = log w ++ [SetLoading true; LocalStorageGetItem "userEmail";
                        GetEventById ""] ++ rest /\
     (forall l, In (SetImages l) rest -> l = [])) /\
  (forall eventDetails attendeeImageData,
     filter (fun data => strict_eq (AttendeeImageData.eventId data) None)
       attendeeImageData = [] /\
     eventImagesOf None eventDetails attendeeImageData = []) /\
  (images (view w) = [] -> images (view w') = []) /\
  (forall eventDetails attendeeImageData e1 e2,
     getEventById (env w) "" = (Normal (Some eventDetails), e1) ->
     getAllAttendeeImagesByUser e1 userEmail = (Normal attendeeImageData, e2) ->
     images (view w') = [] /\ In (SetImages []) (log w')).
Proof.
  intros Hin w'. subst w'.
  assert (Hfilter : forall attendeeImageData,
             filter (fun data => strict_eq (AttendeeImageData.eventId data) None)
               attendeeImageData = []).
  { induction attendeeImageData as [|data rest IH]; simpl; auto. }
  destruct (getEventById (env w) (or_else None "")) as [[[eventDetails|]|err] e1] eqn:Hev.
  - destruct (getAllAttendeeImagesByUser e1 userEmail) as [[recs|err] e2] eqn:Himg.
    + rewrite (fetchEventPhotos_loaded _ _ _ _ _ _ _ Hin Hev Himg).
      rewrite eventImagesOf_undefined. cbn [snd view log images or_else].
      split; [eexists; split; [reflexivity|]|].
      { intros l [H|[H|[H|[H|[]]]]]; inversion H; reflexivity. }
      split; [intros; split; [apply Hfilter|apply eventImagesOf_undefined]|].
      split; [reflexivity|].
      intros ? ? ? ? _ _. split; [reflexivity|].
      apply in_or_app. right. simpl. auto 10.
    + rewrite (fetchEventPhotos_images_rejected _ _ _ _ _ _ _ Hin Hev Himg).
      cbn [snd view log images or_else].
      split; [eexists; split; [reflexivity|]|].
      { intros l [H|[H|[H|[H|[]]]]]; discriminate H. }
      split; [intros; split; [apply Hfilter|apply eventImagesOf_undefined]|].
      split; [auto|].
      intros ? ? ? ? Hev' Himg'. cbn [or_else] in Hev.
      rewrite Hev in Hev'. inversion Hev'; subst.
      rewrite Himg in Himg'. discriminate Himg'.
  - rewrite (fetchEventPhotos_event_absent _ _ _ _ Hin Hev).
    cbn [snd view log images or_else].
    split; [eexists; split; [reflexivity|]|].
    { intros l [H|[H|[H|[]]]]; discriminate H. }
    split; [intros; split; [apply Hfilter|apply eventImagesOf_undefined]|].
    split; [auto|].
    intros ? ? ? ? Hev' _. cbn [or_else] in Hev.
    rewrite Hev in Hev'. discriminate Hev'.
  - rewrite (fetchEventPhotos_event_rejected _ _ _ _ _ Hin Hev).
    cbn [snd view log images or_else].
    split; [eexists; split; [reflexivity|]|].
    { intros l [H|[H|[]]]; discriminate H. }
    split; [intros; split; [apply Hfilter|apply eventImagesOf_undefined]|].
    split; [auto|].
    intros ? ? ? ? Hev' _. cbn [or_else] in Hev.
    rewrite Hev in Hev'. discriminate Hev'.
Qed.

(** C6: every entry of the loaded list has as [imageId] what follows
    the last ['/'] of its [imageUrl] (the whole URL when it has no
    ['/']); the id is the empty string when nothing follows the last
    ['/'] or the URL is empty, and only then. *)
Theorem imageId_is_trailing_segment (eventId : option string)
  (eventDetails : Event.t) (attendeeImageData : list AttendeeImageData.t)
  (m : MatchingImage.t) :
  In m (eventImagesOf eventId eventDetails attendeeImageData) ->
  (forall p s,
     MatchingImage.imageUrl m = (p ++ String "/" s)%string ->
     occurs "/" s = false ->
     MatchingImage.imageId m = s) /\
  (occurs "/" (MatchingImage.imageUrl m) = false ->
   MatchingImage.imageId m = MatchingImage.imageUrl m) /\
  (MatchingImage.imageUrl m = "" \/
   (exists p, MatchingImage.imageUrl m = (p ++ "/")%string) <->
   MatchingImage.imageId m = "").
Proof.
  intros Hm. apply in_eventImagesOf in Hm.
  destruct Hm as (data & url & _ & _ & _ & ->).
  cbn [toMatchingImage MatchingImage.imageId MatchingImage.imageUrl].
  unfold trailing_segment.
  assert (Hlast : forall p s, url = (p ++ String "/" s)%string -> occurs "/" s = false ->
                              or_else (pop (split "/" url)) "" = s).
  { intros p s -> Hs. rewrite (pop_split_after_last _ _ _ Hs).
    apply or_else_self. }
  assert (Hfree : occurs "/" url = false ->
                  or_else (pop (split "/" url)) "" = url).
  { intros Hno. rewrite (split_without_separator _ _ Hno). apply or_else_self. }
  split; [exact Hlast|]. split; [exact Hfree|]. split.
  - intros [->|[p Hp]]; [reflexivity|].
    apply (Hlast p ""); [exact Hp|reflexivity].
  - intros Hid. destruct (last_separator "/" url) as [Hno|(p & s & Hurl & Hs)].
    + left. rewrite (Hfree Hno) in Hid. exact Hid.
    + right. exists p. rewrite (Hlast p s Hurl Hs) in Hid. subst s. exact Hurl.
Qed.

(** *** Single download *)

Lemma handleDownload_run (url : string) (w : World Env) :
  exists e' tail,
    handleDownload url w =
      (Normal tt, mkWorld e' (view w) (log w ++ Fetch url :: tail)) /\
    download_tail url tail.
Proof.
  open_world w. run.
  destruct (fetch e0 url) as [[response|err] e1]; run.
  - destruct (ok response); run.
    + destruct (blob response e1) as [[b|err] e2]; run.
      * do 2 eexists. split; [reflexivity|]. apply tail_saved.
      * do 2 eexists. split; [reflexivity|].
        apply (tail_fallback createObjectURL url [ResponseBlob]). auto.
    + do 2 eexists. split; [reflexivity|].
      apply (tail_fallback createObjectURL url []). auto.
  - do 2 eexists. split; [reflexivity|].
    apply (tail_fallback createObjectURL url []). auto.
Qed.

Lemma download_tail_quiet (url : string) (tail : list Effect) :
  download_tail url tail ->
  attempts tail = [] /\ alerts tail = [] /\
  forall ms, ~ In (AwaitTimeout ms) tail.
Proof.
  intros H. destruct H as [b ct link|before err [->| ->]];
    (split; [reflexivity|split; [reflexivity|]]);
    intros ms Hin; simpl in Hin;
    repeat (destruct Hin as [Hin|Hin]; [discriminate Hin|]); exact Hin.
Qed.

(** C3: whatever the URL, when its download fails (rejected request,
    non-OK status, unreadable body), [handleDownload] completes
    normally, logs the error and ends by opening the raw URL in a new
    browsing context; no save-as is triggered and the view state is
    untouched. *)
Theorem handleDownload_falls_back (url : string) (w : World Env)
  (err : JsError) :
  download_fails (env w) url err ->
  fst (handleDownload url w) = Normal tt /\
  let w' := snd (handleDownload url w) in
  (exists before,
     (before = [] \/ before = [ResponseBlob]) /\
     log w' = log w ++ Fetch url :: before ++
              [ConsoleError "Error downloading image:" (Some err);
               WindowOpen url "_blank"]) /\
  view w' = view w.
Proof.
  intros Hfail. open_world w. run.
  destruct Hfail as [(e' & Hf)|[(r & e' & Hf & Hok & ->)|(r & e1 & e2 & Hf & Hok & Hb)]];
    rewrite Hf; run.
  - split; [reflexivity|]. split; [exists []; auto|reflexivity].
  - rewrite Hok. run.
    split; [reflexivity|]. split; [exists []; auto|reflexivity].
  - rewrite Hok. run. rewrite Hb. run.
    split; [reflexivity|]. split; [exists [ResponseBlob]; auto|reflexivity].
Qed.

(** *** Bulk download *)

Lemma bind_normal {A B} (m : @Async Env A) (k : A -> @Async Env B)
  (w w' : World Env) (a : A) :
  m w = (Normal a, w') -> bind m k w = k a w'.
Proof. intros H. unfold bind. rewrite H. reflexivity. Qed.

Lemma for_of_downloads_run (images : list MatchingImage.t) (w : World Env) :
  exists e' blocks,
    for_of images
      (fun image =>
         handleDownload (MatchingImage.imageUrl image) ;; await_timeout 500) w =
      (Normal tt, mkWorld e' (view w) (log w ++ concat blocks)) /\
    Forall2 iteration_log images blocks.
Proof.
  revert w. induction images as [|image rest IH]; intros w.
  - exists (env w), []. split; [|constructor].
    destruct w; cbn. rewrite app_nil_r. reflexivity.
  - destruct (handleDownload_run (MatchingImage.imageUrl image) w)
      as (e1 & tail & Hrun & Htail).
    set (w1 := mkWorld e1 (view w)
                 (log w ++ Fetch (MatchingImage.imageUrl image)
                    :: tail ++ [AwaitTimeout 500])).
    destruct (IH w1) as (e2 & blocks & Hrest & Hblocks).
    exists e2, ((Fetch (MatchingImage.imageUrl image) :: tail ++ [AwaitTimeout 500])
                  :: blocks).
    split.
    + cbn [for_of]. rewrite (bind_normal _ _ w w1 tt).
      * rewrite Hrest. subst w1. cbn [view log concat].
        rewrite <- app_assoc. reflexivity.
      * rewrite (bind_normal _ _ _ _ _ Hrun). subst w1.
        unfold await_timeout, perform. cbn [env view log].
        rewrite <- app_assoc. reflexivity.
    + constructor; [|exact Hblocks]. exists tail. auto.
Qed.

Lemma handleDownloadAll_run (images : list MatchingImage.t) (w : World Env) :
  exists e' blocks,
    handleDownloadAll images w =
      (Normal tt,
       mkWorld e' (view w) (log w ++ Alert starting_notice :: concat blocks)) /\
    Forall2 iteration_log images blocks.
Proof.
  set (w1 := mkWorld (env w) (view w) (log w ++ [Alert starting_notice])).
  destruct (for_of_downloads_run images w1) as (e' & blocks & Hrun & Hblocks).
  exists e', blocks. split; [|exact Hblocks].
  unfold EventPhotos.handleDownloadAll, try_catch.
  rewrite (bind_normal _ _ w w1 tt) by reflexivity.
  rewrite Hrun. subst w1. cbn [view log].
  rewrite <- app_assoc. reflexivity.
Qed.

Lemma iteration_rest_quiet (url : string) (tail : list Effect) :
  download_tail url tail ->
  attempts (tail ++ [AwaitTimeout 500]) = [] /\
  alerts (tail ++ [AwaitTimeout 500]) = [].
Proof.
  intros H. apply download_tail_quiet in H. destruct H as (Ha & Hb & _).
  rewrite attempts_app, alerts_app, Ha, Hb. auto.
Qed.

Lemma blocks_attempts (images : list MatchingImage.t)
  (blocks : list (list Effect)) :
  Forall2 iteration_log images blocks ->
  attempts (concat blocks) = map MatchingImage.imageUrl images /\
  alerts (concat blocks) = [].
Proof.
  induction 1 as [|image block images blocks (tail & -> & Htail) _ [IHa IHb]];
    [auto|].
  apply iteration_rest_quiet in Htail. destruct Htail as [Ha Hb].
  cbn [concat map]. rewrite attempts_app, alerts_app. cbn [app].
  change (attempts (Fetch (MatchingImage.imageUrl image) :: tail ++ [AwaitTimeout 500]))
    with (MatchingImage.imageUrl image :: attempts (tail ++ [AwaitTimeout 500])).
  change (alerts (Fetch (MatchingImage.imageUrl image) :: tail ++ [AwaitTimeout 500]))
    with (alerts (tail ++ [AwaitTimeout 500])).
  rewrite Ha, Hb, IHa, IHb. auto.
Qed.

(** Between two attempts of a bulk download lies an awaited 500 ms timer. *)
Lemma blocks_separated (images : list MatchingImage.t)
  (blocks : list (list Effect)) :
  Forall2 iteration_log images blocks ->
  forall pre u1 mid u2 post,
    concat blocks = pre ++ Fetch u1 :: mid ++ Fetch u2 :: post ->
    In (AwaitTimeout 500) mid.
Proof.
  induction 1 as [|image block images blocks (tail & -> & Htail) _ IH];
    intros pre u1 mid u2 post Heq.
  - destruct pre; discriminate Heq.
  - apply iteration_rest_quiet in Htail. destruct Htail as [Hquiet _].
    assert (Hnot : forall u, ~ In (Fetch u) (tail ++ [AwaitTimeout 500])).
    { intros u Hin. apply in_attempts in Hin. rewrite Hquiet in Hin. exact Hin. }
    cbn [concat app] in Heq. destruct pre as [|e pre]; cbn [app] in Heq.
    + inversion Heq as [[Hu Hrest]].
      apply app_eq_split in Hrest; [|apply Hnot].
      destruct Hrest as (k & -> & _).
      apply in_or_app. left. apply in_or_app. right. simpl. auto.
    + inversion Heq as [[He Hrest]].
      apply app_eq_split in Hrest; [|apply Hnot].
      destruct Hrest as (k & _ & Hk). exact (IH _ _ _ _ _ Hk).
Qed.

(** C7: a bulk download over a list of N images completes and makes
    exactly N single-download attempts, one per image, in list order;
    between any two attempts the loop awaits its 500 ms timer, so that,
    however long the effects themselves take, at least 500 ms pass from
    the start of one attempt to the start of any later one. *)
Theorem handleDownloadAll_serialized (images : list MatchingImage.t)
  (w : World Env) :
  fst (handleDownloadAll images w) = Normal tt /\
  exists new,
    log (snd (handleDownloadAll images w)) = log w ++ new /\
    attempts new = map MatchingImage.imageUrl images /\
    length (attempts new) = length images /\
    forall pre u1 mid u2 post,
      new = pre ++ Fetch u1 :: mid ++ Fetch u2 :: post ->
      In (AwaitTimeout 500) mid /\
      forall latency, (500 <= elapsed latency (Fetch u1 :: mid))%N.
Proof.
  destruct (handleDownloadAll_run images w) as (e' & blocks & Hrun & Hblocks).
  rewrite Hrun. cbn [fst snd log]. split; [reflexivity|].
  exists (Alert starting_notice :: concat blocks). split; [reflexivity|].
  destruct (blocks_attempts _ _ Hblocks) as [Hatt _].
  assert (Hnew : attempts (Alert starting_notice :: concat blocks) =
                 map MatchingImage.imageUrl images) by exact Hatt.
  split; [exact Hnew|]. split; [rewrite Hnew; apply length_map|].
  intros pre u1 mid u2 post Heq.
  destruct pre as [|e pre]; [discriminate Heq|].
  inversion Heq as [[He Hrest]].
  pose proof (blocks_separated _ _ Hblocks _ _ _ _ _ Hrest) as Hin.
  split; [exact Hin|]. intros latency.
  apply elapsed_await. right. exact Hin.
Qed.

(** C9: [handleDownload] always completes normally, whatever the
    network does; so the [catch] of [handleDownloadAll] never runs: the
    bulk download completes normally, its log is the starting notice
    followed by one turn of the loop per image (an attempt at the
    image's URL, then the timer), and neither the bulk error nor the
    failure notice is ever logged. *)
Theorem handleDownload_never_rejects :
  (forall url w, fst (handleDownload url w) = Normal tt) /\
  (forall images w,
     fst (handleDownloadAll images w) = Normal tt /\
     exists blocks,
       log (snd (handleDownloadAll images w)) =
         log w ++ Alert starting_notice :: concat blocks /\
       Forall2 iteration_log images blocks /\
       length blocks = length images /\
       attempts (concat blocks) = map MatchingImage.imageUrl images /\
       (forall err,
          ~ In (ConsoleError "Error downloading all images:" err)
              (concat blocks)) /\
       ~ In (Alert failure_notice) (concat blocks)).
Proof.
  split.
  - intros url w. destruct (handleDownload_run url w) as (e' & tail & Hrun & _).
    rewrite Hrun. reflexivity.
  - intros images w.
    destruct (handleDownloadAll_run images w) as (e' & blocks & Hrun & Hblocks).
    rewrite Hrun. cbn [fst snd log]. split; [reflexivity|].
    exists blocks. split; [reflexivity|]. split; [exact Hblocks|].
    destruct (blocks_attempts _ _ Hblocks) as [Hatt Hal].
    split; [symmetry; exact (Forall2_length Hblocks)|].
    split; [exact Hatt|]. split.
    + intros err Hin. apply in_concat in Hin.
      destruct Hin as (block & Hblock & Hin).
      clear Hrun Hatt Hal. induction Hblocks as [|image b images bs (tail & -> & Htail) _ IH].
      * contradiction.
      * destruct Hblock as [<-|Hblock]; [|exact (IH Hblock)].
        destruct Hin as [Hin|Hin]; [discriminate Hin|].
        apply in_app_or in Hin. destruct Hin as [Hin|[Hin|[]]]; [|discriminate Hin].
        destruct Htail as [b ct link|before e [->| ->]]; simpl in Hin;
          repeat (destruct Hin as [Hin|Hin]; [discriminate Hin|]); exact Hin.
    + intros Hin. apply in_alerts in Hin. rewrite Hal in Hin. exact Hin.
Qed.

(** *** Every activation *)

Lemma logged_in_or_not (e : Env) :
  truthy (localStorage_getItem e "userEmail") = false \/
  exists userEmail, logged_in e userEmail.
Proof.
  unfold EventPhotos.logged_in.
  destruct (localStorage_getItem e "userEmail") as [[|c s]|]; auto.
  right. exists (String c s). split; [reflexivity|discriminate].
Qed.

(** Whatever the session and the collaborators are, an activation goes
    one of the five ways; [mid] is what it logs between switching the
    loading flag on and off. *)
Lemma fetchEventPhotos_cases (eventId : option string) (w : World Env) :
  exists e' v' mid,
    fetchEventPhotos eventId w =
      (Normal tt,
       mkWorld e' v'
         (log w ++ SetLoading true :: LocalStorageGetItem "userEmail"
                :: mid ++ [SetLoading false])) /\
    ((truthy (localStorage_getItem (env w) "userEmail") = false /\
      mid = [Navigate "/GoogleLogin"] /\
      v' = mkView (event (view w)) (images (view w)) false) \/
     (exists userEmail, logged_in (env w) userEmail /\
      ((mid = [GetEventById (or_else eventId "");
               ConsoleError "Event not found" None;
               Navigate "/attendee-dashboard"] /\
        v' = mkView (event (view w)) (images (view w)) false) \/
       (exists err,
          mid = [GetEventById (or_else eventId "");
                 ConsoleError "Error fetching event photos:" (Some err)] /\
          v' = mkView (event (view w)) (images (view w)) false) \/
       (exists eventDetails err,
          mid = [GetEventById (or_else eventId ""); SetEvent eventDetails;
                 GetAllAttendeeImagesByUser userEmail;
                 ConsoleError "Error fetching event photos:" (Some err)] /\
          v' = mkView (Some eventDetails) (images (view w)) false) \/
       (exists eventDetails attendeeImageData,
          mid = [GetEventById (or_else eventId ""); SetEvent eventDetails;
                 GetAllAttendeeImagesByUser userEmail;
                 SetImages
                   (eventImagesOf eventId eventDetails attendeeImageData)] /\
          v' = mkView (Some eventDetails)
                 (eventImagesOf eventId eventDetails attendeeImageData)
                 false)))).
Proof.
  destruct (logged_in_or_not (env w)) as [Hno|(userEmail & Hin)].
  - rewrite (fetchEventPhotos_no_session _ _ Hno).
    exists (env w), (mkView (event (view w)) (images (view w)) false),
      [Navigate "/GoogleLogin"].
    split; [reflexivity|]. left. auto.
  - destruct (getEventById (env w) (or_else eventId ""))
      as [[[eventDetails|]|err] e1] eqn:Hev.
    + destruct (getAllAttendeeImagesByUser e1 userEmail)
        as [[recs|err] e2] eqn:Himg.
      * rewrite (fetchEventPhotos_loaded _ _ _ _ _ _ _ Hin Hev Himg).
        exists e2, (mkView (Some eventDetails)
                      (eventImagesOf eventId eventDetails recs) false),
          [GetEventById (or_else eventId ""); SetEvent eventDetails;
           GetAllAttendeeImagesByUser userEmail;
           SetImages (eventImagesOf eventId eventDetails recs)].
        split; [reflexivity|]. right. exists userEmail.
        split; [exact Hin|]. do 3 right. eauto.
      * rewrite (fetchEventPhotos_images_rejected _ _ _ _ _ _ _ Hin Hev Himg).
        exists e2, (mkView (Some eventDetails) (images (view w)) false),
          [GetEventById (or_else eventId ""); SetEvent eventDetails;
           GetAllAttendeeImagesByUser userEmail;
           ConsoleError "Error fetching event photos:" (Some err)].
        split; [reflexivity|]. right. exists userEmail.
        split; [exact Hin|]. right. right. left. eauto.
    + rewrite (fetchEventPhotos_event_absent _ _ _ _ Hin Hev).
      exists e1, (mkView (event (view w)) (images (view w)) false),
        [GetEventById (or_else eventId "");
         ConsoleError "Event not found" None;
         Navigate "/attendee-dashboard"].
      split; [reflexivity|]. right. exists userEmail.
      split; [exact Hin|]. left. auto.
    + rewrite (fetchEventPhotos_event_rejected _ _ _ _ _ Hin Hev).
      exists e1, (mkView (event (view w)) (images (view w)) false),
        [GetEventById (or_else eventId "");
         ConsoleError "Error fetching event photos:" (Some err)].
      split; [reflexivity|]. right. exists userEmail.
      split; [exact Hin|]. right. left. eauto.
Qed.

Ltac each_case H :=
  destruct H as
    [(_ & -> & ->)
    |(userEmail & Hin &
      [(-> & ->)
      |[(err & -> & ->)
       |[(eventDetails & err & -> & ->)
        |(eventDetails & recs & -> & ->)]]])].

(** X1: whatever the session token and the collaborators do,
    [fetchEventPhotos] completes normally with [loading] false; the
    first thing it does is switch loading on and read the token, the
    last is to switch loading off; in between it never shows an alert,
    never opens a window and never touches the network. *)
Theorem fetchEventPhotos_always_settles (eventId : option string)
  (w : World Env) :
  fst (fetchEventPhotos eventId w) = Normal tt /\
  loading (view (snd (fetchEventPhotos eventId w))) = false /\
  exists mid,
    log (snd (fetchEventPhotos eventId w)) =
      log w ++ SetLoading true :: LocalStorageGetItem "userEmail"
            :: mid ++ [SetLoading false] /\
    alerts mid = [] /\ opened mid = [] /\ attempts mid = [] /\
    forall b, ~ In (SetLoading b) mid.
Proof.
  destruct (fetchEventPhotos_cases eventId w) as (e' & v' & mid & Hrun & Hcase).
  rewrite Hrun. cbn [fst snd view log].
  split; [reflexivity|]. split; [each_case Hcase; reflexivity|].
  exists mid. split; [reflexivity|].
  each_case Hcase; repeat split;
    intros b Hb; simpl in Hb;
    repeat (destruct Hb as [Hb|Hb]; [discriminate Hb|]); exact Hb.
Qed.

(** X2: in every activation the storage collaborators are called in
    one of three ways: not at all; the event lookup alone, with the
    route's identifier (or [""]); or the event lookup and then the
    image listing, once each, the listing with the stored token. *)
Theorem fetchEventPhotos_call_order (eventId : option string)
  (w : World Env) :
  exists new,
    log (snd (fetchEventPhotos eventId w)) = log w ++ new /\
    (collaborator_calls new = [] \/
     collaborator_calls new = [GetEventById (or_else eventId "")] \/
     exists userEmail,
       localStorage_getItem (env w) "userEmail" = Some userEmail /\
       collaborator_calls new =
         [GetEventById (or_else eventId "");
          GetAllAttendeeImagesByUser userEmail]).
Proof.
  destruct (fetchEventPhotos_cases eventId w) as (e' & v' & mid & Hrun & Hcase).
  rewrite Hrun. cbn [snd log]. eexists. split; [reflexivity|].
  each_case Hcase; cbn; auto;
    right; right; exists userEmail; split; auto; apply Hin.
Qed.

(** X3: an empty [userEmail] token counts as no token: the activation
    redirects to the authentication view and calls no collaborator. *)
Theorem fetchEventPhotos_empty_token (eventId : option string)
  (w : World Env) :
  localStorage_getItem (env w) "userEmail" = Some "" ->
  fetchEventPhotos eventId w =
    (Normal tt,
     mkWorld (env w)
       (mkView (event (view w)) (images (view w)) false)
       (log w ++ [SetLoading true; LocalStorageGetItem "userEmail";
                  Navigate "/GoogleLogin"; SetLoading false])).
Proof.
  intros Htok. apply fetchEventPhotos_no_session. rewrite Htok. reflexivity.
Qed.

(** X4: an activation either sets no image list and leaves the one in
    view state as it was, or sets exactly one, as the last thing before
    loading stops, which is then the list in view state; every entry of
    a list it sets carries the route's event identifier. *)
Theorem fetchEventPhotos_images_frame (eventId : option string)
  (w : World Env) :
  let w' := snd (fetchEventPhotos eventId w) in
  exists new,
    log w' = log w ++ new /\
    (((forall l, ~ In (SetImages l) new) /\
      images (view w') = images (view w)) \/
     (exists before l,
        new = before ++ [SetImages l; SetLoading false] /\
        (forall l', ~ In (SetImages l') before) /\
        images (view w') = l /\
        forall m, In m l -> eventId = Some (MatchingImage.eventId m))).
Proof.
  destruct (fetchEventPhotos_cases eventId w) as (e' & v' & mid & Hrun & Hcase).
  cbv zeta. rewrite Hrun. cbn [snd view log].
  eexists. split; [reflexivity|].
  each_case Hcase; cbn [images app];
    try (left; split; [|reflexivity];
         intros l Hl; simpl in Hl;
         repeat (destruct Hl as [Hl|Hl]; [discriminate Hl|]); exact Hl).
  right.
  exists [SetLoading true; LocalStorageGetItem "userEmail";
          GetEventById (or_else eventId ""); SetEvent eventDetails;
          GetAllAttendeeImagesByUser userEmail].
  eexists. split; [reflexivity|]. split.
  - intros l Hl. simpl in Hl.
    repeat (destruct Hl as [Hl|Hl]; [discriminate Hl|]). exact Hl.
  - split; [reflexivity|]. intros m Hm. apply in_eventImagesOf in Hm.
    destruct Hm as (data & url & _ & Heq & _ & ->). exact Heq.
Qed.

(** *** What is on the page after an activation *)

Lemma nonempty_ltb {A} (l : list A) : l <> [] -> Nat.ltb 0 (length l) = true.
Proof. destruct l; [contradiction|reflexivity]. Qed.

(** X5: an activation started on a state that already holds images
    (the effect runs again on the same state cells when the route's
    [eventId] changes) and whose image listing rejects after the event
    was found does not clear them: what is rendered is the new event's
    name over the grid of the previous images, with "Download All". *)
Theorem fetchEventPhotos_failed_listing_keeps_previous_images
  (eventId : option string) (w : World Env) (userEmail : string)
  (eventDetails : Event.t) (err : JsError) (e1 e2 : Env) :
  logged_in (env w) userEmail ->
  getEventById (env w) (or_else eventId "") = (Normal (Some eventDetails), e1) ->
  getAllAttendeeImagesByUser e1 userEmail = (Thrown err, e2) ->
  images (view w) <> [] ->
  render (view (snd (fetchEventPhotos eventId w))) =
    Gallery (Some (Event.name eventDetails))
      (if truthy (Some (Event.date eventDetails))
       then toLocaleDateString (Event.date eventDetails)
       else "Date not available")
      true
      (PhotoGrid (images (view w))).
Proof.
  intros Hin Hev Himg Hne.
  rewrite (fetchEventPhotos_images_rejected _ _ _ _ _ _ _ Hin Hev Himg).
  cbn [snd view]. unfold EventPhotos.render. cbn [loading event images].
  rewrite (nonempty_ltb _ Hne). reflexivity.
Qed.

(** X6: after an activation that loads, the page shows the event's
    name and its date line; when some record of the route's event has a
    URL, the grid of the entries in record order, with "Download All";
    when none has, the empty-state panel, without the button. *)
Theorem fetchEventPhotos_loaded_page
  (eventId : option string) (w : World Env) (userEmail : string)
  (eventDetails : Event.t) (attendeeImageData : list AttendeeImageData.t)
  (e1 e2 : Env) :
  logged_in (env w) userEmail ->
  getEventById (env w) (or_else eventId "") = (Normal (Some eventDetails), e1) ->
  getAllAttendeeImagesByUser e1 userEmail = (Normal attendeeImageData, e2) ->
  let page := render (view (snd (fetchEventPhotos eventId w))) in
  let dateLine :=
    if truthy (Some (Event.date eventDetails))
    then toLocaleDateString (Event.date eventDetails)
    else "Date not available" in
  ((exists data url,
      In data attendeeImageData /\
      eventId = Some (AttendeeImageData.eventId data) /\
      In url (AttendeeImageData.matchedImages data)) ->
   page =
     Gallery (Some (Event.name eventDetails)) dateLine true
       (PhotoGrid
          (spec_entries_of_active_event eventId eventDetails
             attendeeImageData))) /\
  ((forall data,
      In data attendeeImageData ->
      eventId = Some (AttendeeImageData.eventId data) ->
      AttendeeImageData.matchedImages data = []) ->
   page =
     Gallery (Some (Event.name eventDetails)) dateLine false
       (EmptyState "No photos found for this event")).
Proof.
  intros Hin Hev Himg page dateLine. subst page dateLine.
  rewrite (fetchEventPhotos_loaded _ _ _ _ _ _ _ Hin Hev Himg).
  cbn [snd view]. unfold EventPhotos.render. cbn [loading event images].
  split.
  - intros (data & url & Hd & Heq & Hurl).
    assert (Hne : eventImagesOf eventId eventDetails attendeeImageData <> []).
    { intros Hnil.
      assert (Hm : In (toMatchingImage eventDetails data url)
                      (eventImagesOf eventId eventDetails attendeeImageData))
        by (apply in_eventImagesOf; exists data, url; auto).
      rewrite Hnil in Hm. exact Hm. }
    rewrite (nonempty_ltb _ Hne), eventImagesOf_spec. reflexivity.
  - intros Hnone.
    destruct (eventImagesOf eventId eventDetails attendeeImageData)
      as [|m rest] eqn:Hl; [reflexivity|].
    assert (Hm : In m (eventImagesOf eventId eventDetails attendeeImageData))
      by (rewrite Hl; left; reflexivity).
    apply in_eventImagesOf in Hm.
    destruct Hm as (data & url & Hd & Heq & Hurl & _).
    rewrite (Hnone data Hd Heq) in Hurl. contradiction.
Qed.

(** *** The entries of a loaded list *)

(** X7: the URLs of the loaded list are the URLs of the records of the
    route's event, record after record, each as often as it is listed
    (nothing is sorted or deduplicated); every entry carries the
    event's name; and the list of a concatenation of record lists is
    the concatenation of their lists. *)
Theorem eventImagesOf_urls (eventId : option string)
  (eventDetails : Event.t) (attendeeImageData : list AttendeeImageData.t) :
  map MatchingImage.imageUrl
    (eventImagesOf eventId eventDetails attendeeImageData) =
  flat_map AttendeeImageData.matchedImages
    (filter (fun data => strict_eq (AttendeeImageData.eventId data) eventId)
       attendeeImageData) /\
  (forall m,
     In m (eventImagesOf eventId eventDetails attendeeImageData) ->
     MatchingImage.eventName m = Event.name eventDetails) /\
  (forall first second,
     attendeeImageData = first ++ second ->
     eventImagesOf eventId eventDetails attendeeImageData =
     eventImagesOf eventId eventDetails first ++
     eventImagesOf eventId eventDetails second).
Proof.
  split; [|split].
  - unfold eventImagesOf.
    induction (filter
                 (fun data => strict_eq (AttendeeImageData.eventId data) eventId)
                 attendeeImageData) as [|data rest IH]; [reflexivity|].
    cbn [flat_map]. rewrite map_app, IH, map_map. cbn.
    rewrite map_id. reflexivity.
  - intros m Hm. apply in_eventImagesOf in Hm.
    destruct Hm as (data & url & _ & _ & _ & ->). reflexivity.
  - intros first second ->. unfold eventImagesOf.
    rewrite filter_app, flat_map_app. reflexivity.
Qed.

Lemma string_length_app (a b : string) :
  String.length (a ++ b) = String.length a + String.length b.
Proof. induction a as [|c a IH]; simpl; [reflexivity|]. rewrite IH. reflexivity. Qed.

Lemma string_app_inv_tail (a b t : string) :
  (a ++ t)%string = (b ++ t)%string -> a = b.
Proof.
  revert b. induction a as [|c a IH]; intros [|d b] H.
  - reflexivity.
  - apply (f_equal String.length) in H. cbn in H.
    rewrite string_length_app in H. lia.
  - apply (f_equal String.length) in H. cbn in H.
    rewrite string_length_app in H. lia.
  - cbn in H. inversion H as [[Hc Ht]]. rewrite (IH b Ht). reflexivity.
Qed.

(** X8: [imageId] does not identify an entry: two URLs that differ
    before their last ['/'] and agree after it give two different
    entries with the same [imageId] (the grid's React [key]). *)
Theorem imageId_shared_by_same_file_name (eventDetails : Event.t)
  (data1 data2 : AttendeeImageData.t) (p1 p2 s : string) :
  occurs "/" s = false ->
  p1 <> p2 ->
  let m1 := toMatchingImage eventDetails data1 (p1 ++ String "/" s) in
  let m2 := toMatchingImage eventDetails data2 (p2 ++ String "/" s) in
  MatchingImage.imageUrl m1 <> MatchingImage.imageUrl m2 /\
  m1 <> m2 /\
  MatchingImage.imageId m1 = MatchingImage.imageId m2.
Proof.
  intros Hs Hne m1 m2. subst m1 m2.
  cbn [toMatchingImage MatchingImage.imageUrl MatchingImage.imageId].
  assert (Hurl : (p1 ++ String "/" s)%string <> (p2 ++ String "/" s)%string).
  { intros H. apply Hne. exact (string_app_inv_tail _ _ _ H). }
  split; [exact Hurl|]. split.
  - intros H. apply Hurl.
    exact (f_equal MatchingImage.imageUrl H).
  - unfold trailing_segment. rewrite !(pop_split_after_last _ _ _ Hs).
    reflexivity.
Qed.

(** *** The two ways out of a download *)

Lemma pop_split_some (sep : ascii) (url : string) :
  exists s, pop (split sep url) = Some s /\ occurs sep s = false.
Proof.
  destruct (last_separator sep url) as [Hfree|(p & s & -> & Hs)].
  - exists url. rewrite (split_without_separator _ _ Hfree). auto.
  - exists s. rewrite (pop_split_after_last _ _ _ Hs). auto.
Qed.

Lemma or_else_nonempty (v : option string) (d : string) :
  d <> "" -> or_else v d <> "".
Proof. destruct v as [[|c s]|]; cbn; auto; discriminate. Qed.

Lemma trailing_segment_file_name (url : string) :
  trailing_segment url "photo.jpg" <> "" /\
  occurs "/" (trailing_segment url "photo.jpg") = false /\
  trailing_segment url "photo.jpg" =
    match trailing_segment url "" with
    | EmptyString => "photo.jpg"
    | String c s => String c s
    end.
Proof.
  unfold trailing_segment.
  destruct (pop_split_some "/" url) as (s & -> & Hs).
  destruct s as [|c s]; cbn [or_else];
    (split; [discriminate|split; [|reflexivity]]); [reflexivity|exact Hs].
Qed.

(** A download saves through a clicked link, or falls back to opening
    the URL; [new] is what it logs. *)
Lemma handleDownload_outcomes (url : string) (w : World Env) :
  exists e' new,
    handleDownload url w = (Normal tt, mkWorld e' (view w) (log w ++ new)) /\
    ((exists (response : Response Env) (b : Blob),
        let link :=
          {| Anchor.href := createObjectURL b;
             Anchor.download := trailing_segment url "photo.jpg";
             Anchor.type :=
               or_else (headers_content_type response) "image/jpeg";
             Anchor.target := "_blank" |} in
        new = [Fetch url; ResponseBlob; CreateObjectURL b; AppendChild link;
               Click link; SetTimeout 100 (Cleanup link (createObjectURL b))])
     \/
     (exists before err,
        (before = [] \/ before = [ResponseBlob]) /\
        new = Fetch url :: before ++
              [ConsoleError "Error downloading image:" (Some err);
               WindowOpen url "_blank"])).
Proof.
  open_world w. run.
  destruct (fetch e0 url) as [[response|err] e1]; run.
  - destruct (ok response); run.
    + destruct (blob response e1) as [[b|err] e2]; run.
      * do 2 eexists. split; [reflexivity|]. left. exists response, b.
        reflexivity.
      * do 2 eexists. split; [reflexivity|]. right.
        exists [ResponseBlob]. eexists. split; [auto|reflexivity].
    + do 2 eexists. split; [reflexivity|]. right.
      exists []. eexists. split; [auto|reflexivity].
  - do 2 eexists. split; [reflexivity|]. right.
    exists []. eexists. split; [auto|reflexivity].
Qed.

(** X9: when the request is answered OK and the body can be read, a
    download logs exactly: the request, the reading of the body, the
    object URL, then a link attached, clicked and handed to a 100 ms
    cleanup timer.  The link points to the object URL, is named after
    the URL's trailing segment (or [photo.jpg]), typed by the response's
    content type (or [image/jpeg]) and targets a new context.  Nothing
    is logged to the console and no window is opened. *)
Theorem handleDownload_saves (url : string) (w : World Env)
  (response : Response Env) (b : Blob) (e1 e2 : Env) :
  fetch (env w) url = (Normal response, e1) ->
  ok response = true ->
  blob response e1 = (Normal b, e2) ->
  let link :=
    {| Anchor.href := createObjectURL b;
       Anchor.download := trailing_segment url "photo.jpg";
       Anchor.type := or_else (headers_content_type response) "image/jpeg";
       Anchor.target := "_blank" |} in
  handleDownload url w =
    (Normal tt,
     mkWorld e2 (view w)
       (log w ++ [Fetch url; ResponseBlob; CreateObjectURL b;
                  AppendChild link; Click link;
                  SetTimeout 100 (Cleanup link (createObjectURL b))])).
Proof.
  intros Hf Hok Hb link. subst link. open_world w. run.
  rewrite Hf. run. rewrite Hok. run. rewrite Hb. run. reflexivity.
Qed.

(** X10: whatever the URL and the network, a link that a download
    clicks has a file name that is not empty and has no ['/'], a type
    that is not empty, the target [_blank], and was attached to the
    document before. *)
Theorem handleDownload_link_wellformed (url : string) (w : World Env) :
  exists new,
    log (snd (handleDownload url w)) = log w ++ new /\
    forall link,
      In (Click link) new ->
      Anchor.download link = trailing_segment url "photo.jpg" /\
      Anchor.download link <> "" /\
      occurs "/" (Anchor.download link) = false /\
      Anchor.type link <> "" /\
      Anchor.target link = "_blank" /\
      exists before after,
        new = before ++ AppendChild link :: Click link :: after.
Proof.
  destruct (handleDownload_outcomes url w) as (e' & new & Hrun & Hcase).
  rewrite Hrun. cbn [snd log]. exists new. split; [reflexivity|].
  intros link Hin.
  destruct Hcase as [(response & b & ->)|(before & err & Hb & ->)].
  - simpl in Hin.
    repeat (destruct Hin as [Hin|Hin]; [try discriminate Hin|]);
      [|contradiction].
    inversion Hin as [Hlink]. cbn.
    destruct (trailing_segment_file_name url) as (Hne & Hslash & _).
    split; [reflexivity|]. split; [exact Hne|]. split; [exact Hslash|].
    split; [apply or_else_nonempty; discriminate|]. split; [reflexivity|].
    exists [Fetch url; ResponseBlob; CreateObjectURL b]. eexists.
    reflexivity.
  - exfalso. destruct Hb as [-> | ->]; simpl in Hin;
      repeat (destruct Hin as [Hin|Hin]; [discriminate Hin|]); exact Hin.
Qed.

Lemma blocks_ways_out (images : list MatchingImage.t)
  (blocks : list (list Effect)) :
  Forall2 iteration_log images blocks ->
  length (clicks (Alert starting_notice :: concat blocks)) +
  length (opened (Alert starting_notice :: concat blocks)) = length images.
Proof.
  change (clicks (Alert starting_notice :: concat blocks))
    with (clicks (concat blocks)).
  change (opened (Alert starting_notice :: concat blocks))
    with (opened (concat blocks)).
  induction 1 as [|image block images blocks (tail & -> & Htail) _ IH];
    [reflexivity|].
  cbn [concat length]. unfold clicks, opened in *.
  rewrite !flat_map_app, !length_app.
  destruct Htail as [b ct link|before err [-> | ->]]; cbn; lia.
Qed.

(** X11: every download ends in exactly one of two ways: one link
    clicked and no window opened, or no link clicked and one window
    opened, on the download's own URL; so in a bulk download the links
    clicked and the windows opened add up to the number of images, and
    the view state is not touched. *)
Theorem handleDownload_one_way_out :
  (forall url w,
     exists new,
       log (snd (handleDownload url w)) = log w ++ new /\
       ((length (clicks new) = 1 /\ opened new = []) \/
        (clicks new = [] /\ opened new = [url]))) /\
  (forall images w,
     exists new,
       log (snd (handleDownloadAll images w)) = log w ++ new /\
       length (clicks new) + length (opened new) = length images /\
       view (snd (handleDownloadAll images w)) = view w).
Proof.
  split.
  - intros url w.
    destruct (handleDownload_outcomes url w) as (e' & new & Hrun & Hcase).
    rewrite Hrun. cbn [snd log]. exists new. split; [reflexivity|].
    destruct Hcase as [(response & b & ->)|(before & err & [-> | ->] & ->)];
      cbn; auto.
  - intros images w.
    destruct (handleDownloadAll_run images w) as (e' & blocks & Hrun & Hblocks).
    rewrite Hrun. cbn [snd log view]. eexists. split; [reflexivity|].
    split; [|reflexivity].
    exact (blocks_ways_out _ _ Hblocks).
Qed.

(** X12: a photo of the loaded list that downloads is saved under its
    [imageId], or under [photo.jpg] when its [imageId] is empty. *)
Theorem photo_saved_under_its_imageId (eventDetails : Event.t)
  (data : AttendeeImageData.t) (url : string) (w : World Env)
  (new : list Effect) (link : Anchor.t) :
  let m := toMatchingImage eventDetails data url in
  log (snd (handleDownload (MatchingImage.imageUrl m) w)) = log w ++ new ->
  In (Click link) new ->
  Anchor.download link =
    match MatchingImage.imageId m with
    | EmptyString => "photo.jpg"
    | String c s => String c s
    end.
Proof.
  intros m Hlog Hin. subst m.
  cbn [toMatchingImage MatchingImage.imageUrl MatchingImage.imageId] in *.
  destruct (handleDownload_outcomes url w) as (e' & new' & Hrun & Hcase).
  rewrite Hrun in Hlog. cbn [snd log] in Hlog.
  apply app_inv_head in Hlog. subst new'.
  destruct (trailing_segment_file_name url) as (_ & _ & <-).
  destruct Hcase as [(response & b & ->)|(before & err & Hb & ->)].
  - simpl in Hin.
    repeat (destruct Hin as [Hin|Hin]; [try discriminate Hin|]);
      [|contradiction].
    inversion Hin. reflexivity.
  - exfalso. destruct Hb as [-> | ->]; simpl in Hin;
      repeat (destruct Hin as [Hin|Hin]; [discriminate Hin|]); exact Hin.
Qed.

(** *** Bulk download: time and cleanup *)

Lemma blocks_elapsed (latency : Effect -> N) (images : list MatchingImage.t)
  (blocks : list (list Effect)) :
  Forall2 iteration_log images blocks ->
  (500 * N.of_nat (length images) <= elapsed latency (concat blocks))%N.
Proof.
  induction 1 as [|image block images blocks (tail & -> & _) _ IH];
    [cbn; lia|].
  cbn [concat length]. rewrite elapsed_app.
  assert (500 <= elapsed latency
                   (Fetch (MatchingImage.imageUrl image)
                      :: tail ++ [AwaitTimeout 500]))%N.
  { apply elapsed_await. right. apply in_or_app. right. left. reflexivity. }
  lia.
Qed.

(** X13: a bulk download over N images takes at least N times 500 ms,
    however fast the network is and even when every item fails. *)
Theorem handleDownloadAll_duration (images : list MatchingImage.t)
  (w : World Env) (latency : Effect -> N) :
  exists new,
    log (snd (handleDownloadAll images w)) = log w ++ new /\
    (500 * N.of_nat (length images) <= elapsed latency new)%N.
Proof.
  destruct (handleDownloadAll_run images w) as (e' & blocks & Hrun & Hblocks).
  rewrite Hrun. cbn [snd log]. eexists. split; [reflexivity|].
  change (Alert starting_notice :: concat blocks)
    with ([Alert starting_notice] ++ concat blocks).
  rewrite elapsed_app. pose proof (blocks_elapsed latency _ _ Hblocks). lia.
Qed.

Lemma cleanup_app (a b : list Effect) :
  (removed (flat_map run_task (map snd (timers a))) = appended a /\
   revoked (flat_map run_task (map snd (timers a))) =
     map createObjectURL (created a) /\
   map fst (timers a) = map (fun _ => 100%N) (clicks a) /\
   appended a = clicks a) ->
  (removed (flat_map run_task (map snd (timers b))) = appended b /\
   revoked (flat_map run_task (map snd (timers b))) =
     map createObjectURL (created b) /\
   map fst (timers b) = map (fun _ => 100%N) (clicks b) /\
   appended b = clicks b) ->
  removed (flat_map run_task (map snd (timers (a ++ b)))) = appended (a ++ b) /\
  revoked (flat_map run_task (map snd (timers (a ++ b)))) =
    map createObjectURL (created (a ++ b)) /\
  map fst (timers (a ++ b)) = map (fun _ => 100%N) (clicks (a ++ b)) /\
  appended (a ++ b) = clicks (a ++ b).
Proof.
  intros (A1 & A2 & A3 & A4) (B1 & B2 & B3 & B4).
  assert (Ht : timers (a ++ b) = timers a ++ timers b) by apply flat_map_app.
  assert (Ha : appended (a ++ b) = appended a ++ appended b)
    by apply flat_map_app.
  assert (Hc : created (a ++ b) = created a ++ created b) by apply flat_map_app.
  assert (Hk : clicks (a ++ b) = clicks a ++ clicks b) by apply flat_map_app.
  rewrite Ht, Ha, Hc, Hk, !map_app, flat_map_app.
  unfold removed, revoked in *. rewrite !flat_map_app.
  rewrite A1, A2, A3, A4, B1, B2, B3, B4. auto.
Qed.

Lemma blocks_cleanup (images : list MatchingImage.t)
  (blocks : list (list Effect)) :
  Forall2 iteration_log images blocks ->
  removed (flat_map run_task (map snd (timers (concat blocks)))) =
    appended (concat blocks) /\
  revoked (flat_map run_task (map snd (timers (concat blocks)))) =
    map createObjectURL (created (concat blocks)) /\
  map fst (timers (concat blocks)) =
    map (fun _ => 100%N) (clicks (concat blocks)) /\
  appended (concat blocks) = clicks (concat blocks).
Proof.
  induction 1 as [|image block images blocks (tail & -> & Htail) _ IH];
    [repeat split|].
  cbn [concat]. apply cleanup_app; [|exact IH].
  destruct Htail as [b ct link|before err [-> | ->]];
    repeat split; reflexivity.
Qed.

(** X14: in a bulk download every link attached to the document and
    every object URL created is handed to a cleanup timer: running the
    callbacks of the timers set, in order, removes exactly the links
    attached and revokes exactly the object URLs created; there is one
    timer per link clicked, each of 100 ms. *)
Theorem handleDownloadAll_cleanup_paired (images : list MatchingImage.t)
  (w : World Env) :
  exists new,
    log (snd (handleDownloadAll images w)) = log w ++ new /\
    let actions := flat_map run_task (map snd (timers new)) in
    removed actions = appended new /\
    revoked actions = map createObjectURL (created new) /\
    map fst (timers new) = map (fun _ => 100%N) (clicks new) /\
    appended new = clicks new.
Proof.
  destruct (handleDownloadAll_run images w) as (e' & blocks & Hrun & Hblocks).
  rewrite Hrun. cbn [snd log]. eexists. split; [reflexivity|]. cbv zeta.
  exact (blocks_cleanup _ _ Hblocks).
Qed.

End Properties.

(** ** The component on the concrete deployment *)

(** The scenario of the specification: event [ev1] named "Spring Gala",
    one record of it with two URLs. *)
Example spring_gala_scenario :
  map (fun m => (MatchingImage.imageId m, MatchingImage.eventName m))
    Demo.galaImages
  = [("a.jpg", "Spring Gala"); ("b.jpg", "Spring Gala")].
Proof. reflexivity. Qed.

Lemma demo_logged_in :
  logged_in Demo.localStorage_getItem Demo.loggedIn "ann@x.org".
Proof. split; [reflexivity|discriminate]. Defined.

Lemma fetchEventPhotos_filter_correct_witness :
  logged_in Demo.localStorage_getItem Demo.loggedIn "ann@x.org" /\
  Demo.getEventById Demo.loggedIn "ev1" = (Normal (Some Demo.gala), Demo.loggedIn) /\
  Demo.getAllAttendeeImagesByUser Demo.loggedIn "ann@x.org" =
    (Normal Demo.records, Demo.loggedIn) /\
  Demo.galaImages =
    spec_entries_of_active_event (Some "ev1") Demo.gala Demo.records /\
  (forall m, In m Demo.galaImages -> Some "ev1" = Some (MatchingImage.eventId m)).
Proof.
  pose proof (fetchEventPhotos_filter_correct
                Demo.localStorage_getItem Demo.getEventById
                Demo.getAllAttendeeImagesByUser
                (Some "ev1") (Demo.mount Demo.loggedIn) "ann@x.org"
                Demo.gala Demo.records Demo.loggedIn Demo.loggedIn
                demo_logged_in eq_refl eq_refl) as (Hspec & _ & Hall & _).
  repeat split; try discriminate; assumption.
Defined.

Lemma fetchEventPhotos_unknown_event_witness :
  logged_in Demo.localStorage_getItem Demo.loggedIn "ann@x.org" /\
  Demo.getEventById Demo.loggedIn "nope" = (Normal None, Demo.loggedIn) /\
  exists new,
    log (snd (Demo.fetchEventPhotos (Some "nope") (Demo.mount Demo.loggedIn))) =
      [] ++ new /\
    In (Navigate "/attendee-dashboard") new /\
    (forall email, ~ In (GetAllAttendeeImagesByUser email) new).
Proof.
  destruct (fetchEventPhotos_unknown_event
              Demo.localStorage_getItem Demo.getEventById
              Demo.getAllAttendeeImagesByUser
              (Some "nope") (Demo.mount Demo.loggedIn) "ann@x.org"
              Demo.loggedIn demo_logged_in eq_refl)
    as (new & Hlog & Hnew & Hnone & _).
  split; [exact demo_logged_in|]. split; [reflexivity|].
  exists new. split; [exact Hlog|]. split; [|exact Hnone].
  rewrite Hnew. simpl. auto 10.
Defined.

Lemma fetchEventPhotos_no_token_witness :
  Demo.localStorage_getItem Demo.loggedOut "userEmail" = None /\
  exists new,
    log (snd (Demo.fetchEventPhotos (Some "ev1") (Demo.mount Demo.loggedOut))) =
      [] ++ new /\
    In (Navigate "/GoogleLogin") new /\
    (forall id, ~ In (GetEventById id) new) /\
    (forall email, ~ In (GetAllAttendeeImagesByUser email) new).
Proof.
  destruct (fetchEventPhotos_no_token
              Demo.localStorage_getItem Demo.getEventById
              Demo.getAllAttendeeImagesByUser
              (Some "ev1") (Demo.mount Demo.loggedOut) eq_refl)
    as (new & Hlog & Hnew & Hnoev & Hnoimg & _).
  split; [reflexivity|].
  exists new. split; [exact Hlog|]. split; [|auto].
  rewrite Hnew. simpl. auto.
Defined.

Lemma fetchEventPhotos_fetch_failure_witness :
  logged_in Demo.localStorage_getItem Demo.imagesDown "ann@x.org" /\
  fetch_failure Demo.getEventById Demo.getAllAttendeeImagesByUser
    Demo.imagesDown (Some "ev1") "ann@x.org"
    (Error "image store unavailable") Demo.imagesDown /\
  fst (Demo.fetchEventPhotos (Some "ev1") (Demo.mount Demo.imagesDown)) = Normal tt.
Proof.
  assert (Hin : logged_in Demo.localStorage_getItem Demo.imagesDown "ann@x.org")
    by (split; [reflexivity|discriminate]).
  assert (Hfail : fetch_failure Demo.getEventById Demo.getAllAttendeeImagesByUser
                    Demo.imagesDown (Some "ev1") "ann@x.org"
                    (Error "image store unavailable") Demo.imagesDown).
  { right. exists Demo.gala, Demo.imagesDown. split; reflexivity. }
  split; [exact Hin|]. split; [exact Hfail|].
  exact (proj1 (fetchEventPhotos_fetch_failure
                  Demo.localStorage_getItem Demo.getEventById
                  Demo.getAllAttendeeImagesByUser (fun d => d)
                  (Some "ev1") (Demo.mount Demo.imagesDown) "ann@x.org"
                  (Error "image store unavailable") Demo.imagesDown Hin Hfail)).
Defined.

Lemma fetchEventPhotos_undefined_route_witness :
  logged_in Demo.localStorage_getItem Demo.loggedIn "ann@x.org" /\
  Demo.getEventById Demo.loggedIn "" = (Normal (Some Demo.untitled), Demo.loggedIn) /\
  images (view (snd (Demo.fetchEventPhotos None (Demo.mount Demo.loggedIn)))) = [].
Proof.
  destruct (fetchEventPhotos_undefined_route
              Demo.localStorage_getItem Demo.getEventById
              Demo.getAllAttendeeImagesByUser
              (Demo.mount Demo.loggedIn) "ann@x.org" demo_logged_in)
    as (_ & _ & Hempty & _).
  split; [exact demo_logged_in|]. split; [reflexivity|].
  apply Hempty. reflexivity.
Defined.

Lemma imageId_is_trailing_segment_witness :
  In (toMatchingImage Demo.gala (hd (AttendeeImageData.mk "" "" []) Demo.records)
        "https://x/a.jpg")
     (eventImagesOf (Some "ev1") Demo.gala Demo.records) /\
  MatchingImage.imageId
    (toMatchingImage Demo.gala (hd (AttendeeImageData.mk "" "" []) Demo.records)
       "https://x/a.jpg") = "a.jpg".
Proof.
  assert (Hin : In (toMatchingImage Demo.gala
                      (hd (AttendeeImageData.mk "" "" []) Demo.records)
                      "https://x/a.jpg")
                   (eventImagesOf (Some "ev1") Demo.gala Demo.records))
    by (left; reflexivity).
  split; [exact Hin|].
  apply (proj1 (imageId_is_trailing_segment _ _ _ _ Hin) "https://x" "a.jpg");
    reflexivity.
Defined.

Lemma handleDownload_falls_back_witness :
  download_fails Demo.fetch Demo.loggedIn "https://x/b.jpg"
    (Error "Failed to download image: Not Found") /\
  fst (Demo.handleDownload "https://x/b.jpg" (Demo.mount Demo.loggedIn)) = Normal tt /\
  exists before,
    log (snd (Demo.handleDownload "https://x/b.jpg" (Demo.mount Demo.loggedIn))) =
      [] ++ Fetch "https://x/b.jpg" :: before ++
      [ConsoleError "Error downloading image:"
         (Some (Error "Failed to download image: Not Found"));
       WindowOpen "https://x/b.jpg" "_blank"].
Proof.
  assert (Hfail : download_fails Demo.fetch Demo.loggedIn "https://x/b.jpg"
                    (Error "Failed to download image: Not Found")).
  { right. left. eexists _, Demo.loggedIn. repeat split. }
  destruct (handleDownload_falls_back Demo.fetch Demo.createObjectURL
              "https://x/b.jpg" (Demo.mount Demo.loggedIn) _ Hfail)
    as (Hnormal & (before & _ & Hlog) & _).
  split; [exact Hfail|]. split; [exact Hnormal|].
  exists before. exact Hlog.
Defined.

(** C2, at a failing input: in the bulk download of [b.jpg] (a 404)
    and then [a.jpg], the first item fails and is absorbed by the single
    download (logged, raw URL opened), the loop goes on to the second
    item, and the run ends normally with the starting notice as its only
    alert: the failure notice of the [catch] block is not shown. *)
Theorem handleDownloadAll_item_failure_unreported :
  let r := Demo.handleDownloadAll Demo.twoImages (Demo.mount Demo.loggedIn) in
  fst r = Normal tt /\
  attempts (log (snd r)) = ["https://x/b.jpg"; "https://x/a.jpg"] /\
  In (ConsoleError "Error downloading image:"
        (Some (Error "Failed to download image: Not Found"))) (log (snd r)) /\
  In (WindowOpen "https://x/b.jpg" "_blank") (log (snd r)) /\
  alerts (log (snd r)) = [starting_notice] /\
  ~ In (Alert failure_notice) (log (snd r)).
Proof.
  cbv zeta. repeat split.
  - vm_compute. auto 10.
  - vm_compute. auto 10.
  - intros Hin. apply in_alerts in Hin. vm_compute in Hin.
    destruct Hin as [Hin|[]]. discriminate Hin.
Qed.

(** ** More of the component on the concrete deployment *)

Lemma fetchEventPhotos_empty_token_witness :
  Demo.localStorage_getItem (Demo.mkEnv (Some "") true true) "userEmail"
    = Some "" /\
  log (snd (Demo.fetchEventPhotos (Some "ev1")
              (Demo.mount (Demo.mkEnv (Some "") true true)))) =
    [SetLoading true; LocalStorageGetItem "userEmail";
     Navigate "/GoogleLogin"; SetLoading false].
Proof.
  split; [reflexivity|].
  exact (f_equal (fun r => log (snd r))
           (fetchEventPhotos_empty_token
              Demo.localStorage_getItem Demo.getEventById
              Demo.getAllAttendeeImagesByUser (Some "ev1")
              (Demo.mount (Demo.mkEnv (Some "") true true)) eq_refl)).
Defined.

Lemma fetchEventPhotos_failed_listing_keeps_previous_images_witness :
  logged_in Demo.localStorage_getItem Demo.imagesDown "ann@x.org" /\
  Demo.getEventById Demo.imagesDown "" =
    (Normal (Some Demo.untitled), Demo.imagesDown) /\
  Demo.getAllAttendeeImagesByUser Demo.imagesDown "ann@x.org" =
    (Thrown (Error "image store unavailable"), Demo.imagesDown) /\
  Demo.twoImages <> [] /\
  render (fun d => d)
    (view (snd (Demo.fetchEventPhotos (Some "")
                  (mkWorld Demo.imagesDown
                     (mkView (Some Demo.gala) Demo.twoImages false) [])))) =
    Gallery (Some "Untitled") "Date not available" true
      (PhotoGrid Demo.twoImages).
Proof.
  assert (Hin : logged_in Demo.localStorage_getItem Demo.imagesDown "ann@x.org")
    by (split; [reflexivity|discriminate]).
  assert (Hne : Demo.twoImages <> []) by discriminate.
  split; [exact Hin|]. split; [reflexivity|]. split; [reflexivity|].
  split; [exact Hne|].
  exact (fetchEventPhotos_failed_listing_keeps_previous_images
           Demo.localStorage_getItem Demo.getEventById
           Demo.getAllAttendeeImagesByUser (fun d => d) (Some "")
           (mkWorld Demo.imagesDown
              (mkView (Some Demo.gala) Demo.twoImages false) [])
           "ann@x.org" Demo.untitled (Error "image store unavailable")
           Demo.imagesDown Demo.imagesDown Hin eq_refl eq_refl Hne).
Defined.

Lemma fetchEventPhotos_loaded_page_witness :
  logged_in Demo.localStorage_getItem Demo.loggedIn "ann@x.org" /\
  Demo.getEventById Demo.loggedIn "ev1" = (Normal (Some Demo.gala), Demo.loggedIn) /\
  Demo.getAllAttendeeImagesByUser Demo.loggedIn "ann@x.org" =
    (Normal Demo.records, Demo.loggedIn) /\
  render (fun d => d)
    (view (snd (Demo.fetchEventPhotos (Some "ev1") (Demo.mount Demo.loggedIn)))) =
    Gallery (Some "Spring Gala") "2024-05-01" true
      (PhotoGrid
         (spec_entries_of_active_event (Some "ev1") Demo.gala Demo.records)).
Proof.
  split; [exact demo_logged_in|]. split; [reflexivity|]. split; [reflexivity|].
  apply (proj1 (fetchEventPhotos_loaded_page
                  Demo.localStorage_getItem Demo.getEventById
                  Demo.getAllAttendeeImagesByUser (fun d => d) (Some "ev1")
                  (Demo.mount Demo.loggedIn) "ann@x.org" Demo.gala
                  Demo.records Demo.loggedIn Demo.loggedIn
                  demo_logged_in eq_refl eq_refl)).
  exists (hd (AttendeeImageData.mk "" "" []) Demo.records), "https://x/a.jpg".
  split; [left; reflexivity|]. split; [reflexivity|left; reflexivity].
Defined.

Lemma imageId_shared_by_same_file_name_witness :
  occurs "/" "a.jpg" = false /\
  "https://x" <> "https://y" /\
  MatchingImage.imageId
    (toMatchingImage Demo.gala (hd (AttendeeImageData.mk "" "" []) Demo.records)
       "https://x/a.jpg") =
  MatchingImage.imageId
    (toMatchingImage Demo.gala (hd (AttendeeImageData.mk "" "" []) Demo.records)
       "https://y/a.jpg").
Proof.
  assert (Hne : "https://x" <> "https://y") by discriminate.
  split; [reflexivity|]. split; [exact Hne|].
  exact (proj2 (proj2 (imageId_shared_by_same_file_name Demo.gala
                         (hd (AttendeeImageData.mk "" "" []) Demo.records)
                         (hd (AttendeeImageData.mk "" "" []) Demo.records)
                         "https://x" "https://y" "a.jpg" eq_refl Hne))).
Defined.

Lemma handleDownload_saves_witness :
  exists response,
    Demo.fetch Demo.loggedIn "https://x/a.jpg" = (Normal response, Demo.loggedIn) /\
    ok response = true /\
    blob response Demo.loggedIn = (Normal "a-bytes", Demo.loggedIn) /\
    clicks (log (snd (Demo.handleDownload "https://x/a.jpg"
                        (Demo.mount Demo.loggedIn)))) =
      [ {| Anchor.href := "blob:a-bytes"; Anchor.download := "a.jpg";
           Anchor.type := "image/png"; Anchor.target := "_blank" |} ].
Proof.
  eexists. split; [reflexivity|]. split; [reflexivity|]. split; [reflexivity|].
  unfold Demo.handleDownload.
  rewrite (handleDownload_saves Demo.fetch Demo.createObjectURL
             "https://x/a.jpg" (Demo.mount Demo.loggedIn) _ "a-bytes"
             Demo.loggedIn Demo.loggedIn eq_refl eq_refl eq_refl).
  reflexivity.
Defined.

Lemma photo_saved_under_its_imageId_witness :
  In (Click {| Anchor.href := "blob:a-bytes"; Anchor.download := "a.jpg";
               Anchor.type := "image/png"; Anchor.target := "_blank" |})
     (log (snd (Demo.handleDownload "https://x/a.jpg"
                  (Demo.mount Demo.loggedIn)))) /\
  "a.jpg" =
  MatchingImage.imageId
    (toMatchingImage Demo.gala (hd (AttendeeImageData.mk "" "" []) Demo.records)
       "https://x/a.jpg").
Proof.
  assert (Hin : In (Click {| Anchor.href := "blob:a-bytes";
                             Anchor.download := "a.jpg";
                             Anchor.type := "image/png";
                             Anchor.target := "_blank" |})
                   (log (snd (Demo.handleDownload "https://x/a.jpg"
                                (Demo.mount Demo.loggedIn)))))
    by (vm_compute; auto 10).
  split; [exact Hin|].
  exact (photo_saved_under_its_imageId Demo.fetch Demo.createObjectURL
           Demo.gala (hd (AttendeeImageData.mk "" "" []) Demo.records)
           "https://x/a.jpg" (Demo.mount Demo.loggedIn) _ _ eq_refl Hin).
Defined.

(** A failed fetch does not always leave the image list empty.  On a
    second activation: the gallery of [ev1] is on the page, the route
    changes to the event with id [""], that event is found and the
    image listing rejects.  The activation is one with a failed fetch,
    and the image list it leaves is not empty: it is still the list of
    [ev1], rendered as a grid under the new event's name. *)
Lemma fetch_failure_leaves_previous_images :
  let w := mkWorld Demo.imagesDown
             (mkView (Some Demo.gala) Demo.twoImages false) [] in
  let w' := snd (Demo.fetchEventPhotos (Some "") w) in
  logged_in Demo.localStorage_getItem (env w) "ann@x.org" /\
  fetch_failure Demo.getEventById Demo.getAllAttendeeImagesByUser
    (env w) (Some "") "ann@x.org"
    (Error "image store unavailable") Demo.imagesDown /\
  images (view w') = Demo.twoImages /\
  images (view w') <> [] /\
  render (fun d => d) (view w') =
    Gallery (Some "Untitled") "Date not available" true
      (PhotoGrid Demo.twoImages).
Proof.
  cbv zeta. split; [split; [reflexivity|discriminate]|].
  split.
  - right. exists Demo.untitled, Demo.imagesDown. split; reflexivity.
  - split; [reflexivity|]. split; [discriminate|reflexivity].
Qed.
